(** * rserver: bootstrap sequence, signal loop and file-handler adaptation

    A shallow embedding of [src/cpp/server/ServerMain.cpp].  The program is
    a sequence of calls into collaborators (option parsing, crypto, the
    http server, the authentication modules, the operating system); the
    embedding keeps the control flow of the source and records every
    collaborator call in a trace.  What a collaborator answers is read from
    a [World].  An exception is modelled where the source leaves a failure
    no other way out ([crypto::initialize] returns nothing): it ends [main]
    in its [catch] clause. *)

From Stdlib Require Import ZArith String List Bool Lia DecimalString Permutation.
Import ListNotations.
Local Open Scope string_scope.
Local Open Scope Z_scope.
Local Open Scope list_scope.

(* ================================================================== *)
(** * Errors and exit codes *)

(** Modelled from the spec: [core::Error] (core/Error.hpp) is not among the
    sources.  The spec calls it a fallible result; the source only ever
    tests it ([if (error)]) and builds it from a system error number, so it
    is an error code that is set when it is not zero. *)
Record Error : Type := mkError { ec : Z }.

Definition Success : Error := mkError 0.
Definition systemError (value : Z) : Error := mkError value.
Definition isError (e : Error) : bool := negb (ec e =? 0).

Definition EXIT_SUCCESS : Z := 0.
Definition EXIT_FAILURE : Z := 1.

(** [ProgramStatus]: what [options.read] hands back. *)
Record ProgramStatus : Type := mkStatus { exit : bool; exitCode : Z }.

(* ================================================================== *)
(** * Configuration *)

Record Options : Type := mkOptions {
  serverDaemonize : bool;
  serverWorkingDir : string;
  serverOffline : bool;
  serverAppArmorEnabled : bool;
  serverUser : string;
  verifyInstallation : bool;
  wwwAddress : string;
  wwwPort : string;
  wwwLocalPath : string;
  wwwThreadPoolSize : Z
}.

(* ================================================================== *)
(** * The route table as [httpServerAddHandlers] fills it *)

Module Route.

(** The session-proxy entry points handed to the secure wrappers. *)
Inductive Proxy : Type :=
| proxyRpcRequest
| proxyEventsRequest
| proxyContentRequest.

(** A secure asynchronous function: a proxy entry point or the adapted
    file handler built by [secureAsyncFileHandler]. *)
Inductive SecureAsync : Type :=
| proxy (f : Proxy)
| secureAsyncFileHandler.

Inductive AsyncHandler : Type :=
| secureAsyncJsonRpcHandler (f : Proxy)
| secureAsyncHttpHandler (f : SecureAsync) (authenticate : bool)
| secureAsyncUploadHandler (f : Proxy).

Inductive BlockingHandler : Type :=
| secureJsonRpcHandler_handleLogRequest
| secureHttpHandler_handleSecureTemplateRequest (templatePath : string)
| handleBrowserUnsupportedRequest
| notFoundHandler
| blockingFileHandler (wwwLocalPath : string).

End Route.

(* ================================================================== *)
(** * Signals and process credentials *)

(** What a signal does when it is delivered. *)
Inductive Disposition : Type :=
| SIG_DFL
| SIG_IGN
| Handler (name : string).

(** What the default disposition of a signal does to the process: end
    it, nothing, or stop it until it is continued. *)
Inductive DefaultAction : Type :=
| Terminate
| Discard
| Suspend.

(** Real, effective and saved user id of the process. *)
Record Credentials : Type := mkCred { ruid : Z; euid : Z; suid : Z }.

(* ================================================================== *)
(** * Observable calls *)

Inductive Event : Type :=
| EvInitializeSystemLog (ident level : string)
| EvIgnoreSignal (name : string)
| EvLogError (e : Error)
| EvLogWarningMessage (msg : string)
| EvReportError (msg : string)
| EvOptionsRead
| EvDaemonize
| EvIgnoreTerminalSignals
| EvSetUMask (mask : string)
| EvREnvironmentInitialize
| EvSetResourceLimit (limit : Z)
| EvMakeCurrentPath (dir : string)
| EvCryptoInitialize
| EvSecureCookieInitialize
| EvSessionProxyInitialize
| EvNewServer (name : string)
| EvSetAbortOnResourceError (b : bool)
| EvServerInit (address port : string)
| EvOfflineAddHandlers
| EvAddHandler (prefix : string) (h : Route.AsyncHandler)
| EvAddBlockingHandler (prefix : string) (h : Route.BlockingHandler)
| EvSetDefaultHandler (h : Route.AsyncHandler)
| EvSetBlockingDefaultHandler (h : Route.BlockingHandler)
| EvAddScheduledCommand (name : string)
| EvAddinsInitialize
| EvAuthIsRegistered
| EvPamAuthInitialize
| EvEnforceRestricted
| EvTemporarilyDropPriv (user : string)
| EvRunVerifyInstallationSession
| EvServerRun (threads : Z)
| EvSigaction (sig : Z) (d : Disposition)
| EvSigmaskBlock (sigs : list Z)
| EvSigwait
| EvNotifySIGCHLD
| EvClearSignalMask
| EvKill (sig : Z)
| EvCatchUnexpectedException.

(* ================================================================== *)
(** * The world outside ServerMain.cpp *)

(** Constants and helpers of headers that are not among the sources:
    the signal numbers of <signal.h>, the default action of a signal,
    [kBrowserUnsupported] of ServerBrowser.hpp and
    [safe_convert::numberToString]. *)
Record Platform : Type := mkPlatform {
  SIGCHLD : Z;
  SIGINT : Z;
  SIGQUIT : Z;
  SIGTERM : Z;
  defaultAction : Z -> DefaultAction;
  kBrowserUnsupported : string;
  numberToString : Z -> string
}.

(** One return of [sigwait] in the loop of [waitForSignals], with what
    the termination branch meets: the signals that have arrived since and
    are held back by the mask when the branch clears it (in the order the
    system delivers them), and the answers of the two calls the branch
    checks. *)
Record Wakeup : Type := mkWakeup {
  sigwait_result : Z;
  sigwait_sig : Z;
  pending_signals : list Z;
  clearSignalMask_ret : Error;
  sigaction_ret : Z
}.

(** The answers of the collaborators [main] calls, in source order, and the
    process as it stands when [main] is entered.  [crypto::initialize] is
    called as a statement and hands nothing back: [crypto_initialize_ok]
    says whether it returns, or fails the only way it can, by throwing.  Signal dispositions that
    collaborators install ([ignoreSignal], [ignoreTerminalSignals]) are not
    traced one by one: [start_disposition] is the disposition table in force
    apart from the entries this file sets itself. *)
Record World : Type := mkWorld {
  platform : Platform;
  start_cred : Credentials;
  start_sigmask : list Z;
  start_disposition : Z -> Disposition;
  ignoreSignal_ret : Error;
  options_read_ret : ProgramStatus;
  options : Options;
  daemonize_ret : Error;
  ignoreTerminalSignals_ret : Error;
  r_environment_detected : bool;
  r_environment_errMsg : string;
  setResourceLimit_ret : Error;
  makeCurrentPath_ret : Error;
  crypto_initialize_ok : bool;
  secure_cookie_initialize_ret : Error;
  session_proxy_initialize_ret : Error;
  server_init_ret : Error;
  addins_initialize_ret : Error;
  auth_handler_isRegistered : bool;
  pam_auth_initialize_ret : Error;
  enforceRestricted_ret : Error;
  runAsUid : Z;
  temporarilyDropPriv_ret : Error;
  runVerifyInstallationSession_ret : Error;
  server_run_ret : Error;
  sigaction_SIGCHLD_ret : Z;
  sigaction_SIGCHLD_errno : Z;
  pthread_sigmask_ret : Z;
  wakeups : list Wakeup
}.

(* ================================================================== *)
(** * The process and the monad of the embedding *)

Record Process : Type := mkProcess {
  trace : list Event;
  cred : Credentials;
  sigmask : list Z;
  disposition : Z -> Disposition
}.

Definition startProcess (w : World) : Process :=
  mkProcess [] (start_cred w) (start_sigmask w) (start_disposition w).

(** How a run ends: [main] returns an exit code, the process dies of a
    signal, or it sits in [sigwait] with nothing more to receive. *)
Inductive Halt : Type :=
| Exited (code : Z)
| KilledBy (sig : Z)
| BlockedInSigwait.

Inductive Flow (A : Type) : Type :=
| Next (a : A)
| Stop (h : Halt).
Arguments Next {A} a.
Arguments Stop {A} h.

Definition M (A : Type) : Type := Process -> Process * Flow A.

Definition ret {A : Type} (a : A) : M A := fun p => (p, Next a).

Definition bind {A B : Type} (c : M A) (k : A -> M B) : M B :=
  fun p =>
    match c p with
    | (p', Next a) => k a p'
    | (p', Stop h) => (p', Stop h)
    end.

Notation "x <- c ;; k" := (bind c (fun x => k))
  (at level 61, c at next level, right associativity).
Notation "c ;; k" := (bind c (fun _ => k))
  (at level 61, right associativity).

Definition halt {A : Type} (h : Halt) : M A := fun p => (p, Stop h).

Definition emit (e : Event) : M unit :=
  fun p =>
    (mkProcess (trace p ++ [e]) (cred p) (sigmask p) (disposition p),
     Next tt).

(** A collaborator call: traced, answered by the world. *)
Definition call {A : Type} (e : Event) (answer : A) : M A :=
  emit e ;; ret answer.

Definition when (b : bool) (c : M unit) : M unit :=
  if b then c else ret tt.

(** [LOG_ERROR(error)]. *)
Definition LOG_ERROR (error : Error) : M unit := emit (EvLogError error).

(** [LOG_WARNING_MESSAGE(msg)]. *)
Definition LOG_WARNING_MESSAGE (msg : string) : M unit :=
  emit (EvLogWarningMessage msg).

(** Modelled from the spec: [core::system::exitFailure] (PosixSystem.hpp)
    is not among the sources.  Section 7 of the spec: a fatal bootstrap
    error is logged and the process exits with failure status. *)
Definition exitFailure {A : Type} (error : Error) : M A :=
  emit (EvLogError error) ;; halt (Exited EXIT_FAILURE).

(** [if (error) return core::system::exitFailure(error, ERROR_LOCATION);] *)
Definition check (error : Error) : M unit :=
  if isError error then exitFailure error else ret tt.

(** An exception thrown inside the [try] block of [main], in which all of
    the embedding runs: control passes to the [catch] clauses of
    CATCH_UNEXPECTED_EXCEPTION (line 447; the macro is of a header that is
    not among the sources and is traced as one call) and from there to
    [return EXIT_FAILURE] (line 450). *)
Definition throw {A : Type} : M A :=
  emit EvCatchUnexpectedException ;; halt (Exited EXIT_FAILURE).

(* ================================================================== *)
(** * Operating-system state the program changes *)

Definition set_cred (c : Credentials) (p : Process) : Process :=
  mkProcess (trace p) c (sigmask p) (disposition p).

Definition set_sigmask (m : list Z) (p : Process) : Process :=
  mkProcess (trace p) (cred p) m (disposition p).

Definition set_disposition (sig : Z) (d : Disposition) (p : Process) : Process :=
  mkProcess (trace p) (cred p) (sigmask p)
            (fun s => if s =? sig then d else disposition p s).

Definition blocked (sig : Z) (p : Process) : bool :=
  existsb (Z.eqb sig) (sigmask p).

(** [core::system::realUserIsRoot()]: the real user id is 0. *)
Definition realUserIsRoot : M bool :=
  fun p => (p, Next (ruid (cred p) =? 0)).

(** Modelled from the spec: [core::system::temporarilyDropPriv]
    (PosixSystem.cpp) is not among the sources.  Section 4.4 of the spec
    and its glossary: the phase permanently drops elevated privilege,
    relinquishing it for the remaining process lifetime; so the real, the
    effective and the saved user all become the run-as user, as setuid
    does for a privileged process.  Whether the call fails is the world's
    answer; a failed call leaves the credentials as they were. *)
Definition temporarilyDropPriv (w : World) (newUsername : string) : M Error :=
  emit (EvTemporarilyDropPriv newUsername) ;;
  fun p =>
    if isError (temporarilyDropPriv_ret w) then
      (p, Next (temporarilyDropPriv_ret w))
    else
      (set_cred (mkCred (runAsUid w) (runAsUid w) (runAsUid w)) p,
       Next (temporarilyDropPriv_ret w)).

(** POSIX seteuid: a process whose effective user is not root may only
    take its real, effective or saved user id. *)
Definition seteuid (uid : Z) (c : Credentials) : option Credentials :=
  if (euid c =? 0) || (uid =? ruid c) || (uid =? euid c) || (uid =? suid c)
  then Some (mkCred (ruid c) uid (suid c))
  else None.

(** The process runs with elevated privilege. *)
Definition privileged (c : Credentials) : bool := euid c =? 0.

(** The process can make itself privileged (again). *)
Definition canRegainPrivilege (c : Credentials) : bool :=
  match seteuid 0 c with
  | Some c' => privileged c'
  | None => false
  end.

(** A signal is delivered to the process: under the default disposition
    its default action is taken; an ignored signal is dropped, and a
    handler of this file ([handleSIGCHLD]) does nothing. *)
Definition deliver (pf : Platform) (sig : Z) : M unit :=
  fun p =>
    match disposition p sig with
    | SIG_DFL =>
        match defaultAction pf sig with
        | Terminate => (p, Stop (KilledBy sig))
        | Discard => (p, Next tt)
        | Suspend => (p, Next tt)
        end
    | SIG_IGN => (p, Next tt)
    | Handler _ => (p, Next tt)
    end.

Fixpoint deliverAll (pf : Platform) (sigs : list Z) : M unit :=
  match sigs with
  | [] => ret tt
  | sig :: sigs' => deliver pf sig ;; deliverAll pf sigs'
  end.

(** The mask becomes empty: the signals it held back are delivered before
    the call returns.  Only a blocked signal can have been held back. *)
Definition unblockAll (pf : Platform) (pending : list Z) : M unit :=
  fun p =>
    deliverAll pf (filter (fun sig => blocked sig p) pending)
               (set_sigmask [] p).

(** Modelled from the spec: [core::system::clearSignalMask]
    (PosixSystem.cpp) is not among the sources.  Section 4.5 of the spec:
    it clears the process signal mask.  The spec does not say what a
    failed call does: the source tests the error it returns, which is the
    world's answer, and the embedding takes the mask to be untouched
    then. *)
Definition clearSignalMask (pf : Platform) (answer : Error)
           (pending : list Z) : M Error :=
  emit EvClearSignalMask ;;
  if isError answer then ret answer
  else unblockAll pf pending ;; ret answer.

(** [::sigaction(sig, &sa, NULL)]: installs the disposition when it
    returns 0. *)
Definition sigaction (sig : Z) (d : Disposition) (answer : Z) : M Z :=
  emit (EvSigaction sig d) ;;
  fun p =>
    if answer =? 0 then (set_disposition sig d p, Next answer)
    else (p, Next answer).

(** [::pthread_sigmask(SIG_BLOCK, &set, NULL)]: adds the set to the mask
    when it returns 0. *)
Definition pthread_sigmask_block (set : list Z) (answer : Z) : M Z :=
  emit (EvSigmaskBlock set) ;;
  fun p =>
    if answer =? 0 then (set_sigmask (set ++ sigmask p) p, Next answer)
    else (p, Next answer).

(** [::kill(::getpid(), sig)]: signal 0 sends nothing; a blocked signal
    stays pending, for a later [sigwait] to return, and the call comes
    back; an unblocked one is delivered before the call returns. *)
Definition kill (pf : Platform) (sig : Z) : M unit :=
  emit (EvKill sig) ;;
  fun p =>
    if sig =? 0 then (p, Next tt)
    else if blocked sig p then (p, Next tt)
    else deliver pf sig p.

(* ================================================================== *)
(** * waitForSignals *)

(** [sig == SIGINT || sig == SIGQUIT || sig == SIGTERM] *)
Definition isTerminationSignal (pf : Platform) (sig : Z) : bool :=
  (sig =? SIGINT pf) || (sig =? SIGQUIT pf) || (sig =? SIGTERM pf).

(** The signals [waitForSignals] blocks and waits for. *)
Definition wait_mask (pf : Platform) : list Z :=
  [SIGCHLD pf; SIGINT pf; SIGQUIT pf; SIGTERM pf].

(** One turn of the [for(;;)] loop.  [Some error] is [return error];
    [None] falls off the end of the body, back to the head of the loop. *)
Definition loopBody (pf : Platform) (wk : Wakeup) : M (option Error) :=
  (* perform wait *)
  result <- call EvSigwait (sigwait_result wk) ;;
  if negb (result =? 0) then ret (Some (systemError result)) else
  let sig := sigwait_sig wk in
  (* SIGCHLD *)
  if sig =? SIGCHLD pf then
    emit EvNotifySIGCHLD ;;
    ret None
  (* SIGINT, SIGQUIT, SIGTERM *)
  else if isTerminationSignal pf sig then
    (* clear the signal mask *)
    error <- clearSignalMask pf (clearSignalMask_ret wk)
                             (pending_signals wk) ;;
    when (isError error) (LOG_ERROR error) ;;
    (* reset the signal to its default *)
    result <- sigaction sig SIG_DFL (sigaction_ret wk) ;;
    when (negb (result =? 0)) (LOG_ERROR (systemError result)) ;;
    (* re-raise the signal *)
    kill pf sig ;;
    ret None
  (* Unexpected signal *)
  else
    LOG_WARNING_MESSAGE
      (String.append "Unexpected signal returned from sigwait: "
                     (numberToString pf sig)) ;;
    ret None.

(** The loop, driven by what [sigwait] returns; when nothing more arrives
    the process stays blocked in [sigwait]. *)
Fixpoint waitLoop (pf : Platform) (wks : list Wakeup) : M Error :=
  match wks with
  | [] => halt BlockedInSigwait
  | wk :: wks' =>
      r <- loopBody pf wk ;;
      match r with
      | Some error => ret error
      | None => waitLoop pf wks'
      end
  end.

Definition waitForSignals (w : World) : M Error :=
  let pf := platform w in
  (* setup bogus handler for SIGCHLD *)
  result <- sigaction (SIGCHLD pf) (Handler "handleSIGCHLD")
                      (sigaction_SIGCHLD_ret w) ;;
  if negb (result =? 0) then ret (systemError (sigaction_SIGCHLD_errno w)) else
  (* block signals that we want to sigwait on *)
  result <- pthread_sigmask_block (wait_mask pf) (pthread_sigmask_ret w) ;;
  if negb (result =? 0) then ret (systemError result) else
  (* wait for child exits *)
  waitLoop pf (wakeups w).

(* ================================================================== *)
(** * The http server and its handlers *)

Module uri_handlers.

Definition add (prefix : string) (handler : Route.AsyncHandler) : M unit :=
  emit (EvAddHandler prefix handler).

Definition addBlocking (prefix : string) (handler : Route.BlockingHandler)
  : M unit :=
  emit (EvAddBlockingHandler prefix handler).

Definition setDefault (handler : Route.AsyncHandler) : M unit :=
  emit (EvSetDefaultHandler handler).

(** set blocking default handler *)
Definition setBlockingDefault (handler : Route.BlockingHandler) : M unit :=
  emit (EvSetBlockingDefaultHandler handler).

End uri_handlers.

Module scheduler.

(** [pCmd] is named by the command it points to. *)
Definition addCommand (pCmd : string) : M unit :=
  emit (EvAddScheduledCommand pCmd).

End scheduler.

Definition httpServerInit (w : World) : M Error :=
  (* create http server *)
  emit (EvNewServer "RStudio") ;;
  (* set server options *)
  emit (EvSetAbortOnResourceError true) ;;
  (* initialize the http server *)
  call (EvServerInit (wwwAddress (options w)) (wwwPort (options w)))
       (server_init_ret w).

(** [FilePath::complete]: the path of a file below a directory. *)
Definition complete (dir file : string) : string :=
  String.append dir (String.append "/" file).

Definition httpServerAddHandlers (w : World) : M unit :=
  let content := Route.proxy Route.proxyContentRequest in
  (* establish json-rpc handlers *)
  uri_handlers.add "/rpc" (Route.secureAsyncJsonRpcHandler Route.proxyRpcRequest) ;;
  uri_handlers.add "/events" (Route.secureAsyncJsonRpcHandler Route.proxyEventsRequest) ;;
  (* establish content handlers *)
  uri_handlers.add "/graphics" (Route.secureAsyncHttpHandler content false) ;;
  uri_handlers.add "/upload" (Route.secureAsyncUploadHandler Route.proxyContentRequest) ;;
  uri_handlers.add "/export" (Route.secureAsyncHttpHandler content false) ;;
  uri_handlers.add "/source" (Route.secureAsyncHttpHandler content false) ;;
  uri_handlers.add "/content" (Route.secureAsyncHttpHandler content false) ;;
  uri_handlers.add "/diff" (Route.secureAsyncHttpHandler content false) ;;
  uri_handlers.add "/file_show" (Route.secureAsyncHttpHandler content false) ;;
  uri_handlers.add "/view_pdf" (Route.secureAsyncHttpHandler content false) ;;
  uri_handlers.add "/agreement" (Route.secureAsyncHttpHandler content false) ;;
  uri_handlers.add "/presentation" (Route.secureAsyncHttpHandler content false) ;;
  (* content handlers which might be accessed outside the workbench *)
  uri_handlers.add "/help" (Route.secureAsyncHttpHandler content true) ;;
  uri_handlers.add "/files" (Route.secureAsyncHttpHandler content true) ;;
  uri_handlers.add "/custom" (Route.secureAsyncHttpHandler content true) ;;
  uri_handlers.add "/session" (Route.secureAsyncHttpHandler content true) ;;
  uri_handlers.add "/docs"
    (Route.secureAsyncHttpHandler Route.secureAsyncFileHandler true) ;;
  uri_handlers.add "/html_preview" (Route.secureAsyncHttpHandler content true) ;;
  (* establish logging handler *)
  uri_handlers.addBlocking "/log" Route.secureJsonRpcHandler_handleLogRequest ;;
  (* establish progress handler *)
  let progressPagePath := complete (wwwLocalPath (options w)) "progress.htm" in
  uri_handlers.addBlocking "/progress"
    (Route.secureHttpHandler_handleSecureTemplateRequest progressPagePath) ;;
  (* establish browser unsupported handler *)
  uri_handlers.addBlocking (kBrowserUnsupported (platform w))
    Route.handleBrowserUnsupportedRequest ;;
  (* restrict access to templates directory *)
  uri_handlers.addBlocking "/templates" Route.notFoundHandler ;;
  (* add default handler for gwt app *)
  uri_handlers.setBlockingDefault
    (Route.blockingFileHandler (wwwLocalPath (options w))).

(* ================================================================== *)
(** * main *)

(** The paragraphs of [main], named after the bootstrap phases of the
    spec; [AppArmorEnforced] is the AppArmor paragraph, which the spec
    lists as an operation next to the privilege drop. *)
Inductive Phase : Type :=
| OptionsLoaded
| Daemonized
| EnvironmentDetected
| ResourceLimitsSet
| WorkingDirSet
| CryptoInitialized
| SecurityModulesInitialized
| HandlersRegistered
| AppArmorEnforced
| PrivilegeDropped
| Running.

Definition empty (s : string) : bool :=
  match s with
  | EmptyString => true
  | String _ _ => false
  end.

(** One paragraph of [main].  [halt (Exited c)] is [return c]. *)
Definition phase (w : World) (ph : Phase) : M unit :=
  let options := options w in
  match ph with
  | OptionsLoaded =>
      (* initialize log *)
      emit (EvInitializeSystemLog "rserver" "kLogLevelWarning") ;;
      (* ignore SIGPIPE *)
      error <- call (EvIgnoreSignal "SigPipe") (ignoreSignal_ret w) ;;
      when (isError error) (LOG_ERROR error) ;;
      (* read program options *)
      status <- call EvOptionsRead (options_read_ret w) ;;
      if exit status then halt (Exited (exitCode status)) else ret tt
  | Daemonized =>
      (* daemonize if requested *)
      if serverDaemonize options then
        error <- call EvDaemonize (daemonize_ret w) ;;
        check error ;;
        error <- call EvIgnoreTerminalSignals (ignoreTerminalSignals_ret w) ;;
        check error ;;
        (* set file creation mask to 022 *)
        emit (EvSetUMask "OthersNoWriteMask")
      else ret tt
  | EnvironmentDetected =>
      (* detect R environment variables *)
      detected <- call EvREnvironmentInitialize (r_environment_detected w) ;;
      if negb detected then
        emit (EvReportError (r_environment_errMsg w)) ;;
        halt (Exited EXIT_FAILURE)
      else ret tt
  | ResourceLimitsSet =>
      (* increase the number of open files allowed *)
      root <- realUserIsRoot ;;
      if root then
        error <- call (EvSetResourceLimit 4096) (setResourceLimit_ret w) ;;
        check error
      else ret tt
  | WorkingDirSet =>
      (* set working directory *)
      error <- call (EvMakeCurrentPath (serverWorkingDir options))
                    (makeCurrentPath_ret w) ;;
      check error
  | CryptoInitialized =>
      (* initialize crypto utils: a call statement, with nothing to test
         when it comes back *)
      ok <- call EvCryptoInitialize (crypto_initialize_ok w) ;;
      if ok then ret tt else throw
  | SecurityModulesInitialized =>
      (* initialize secure cookie module *)
      error <- call EvSecureCookieInitialize (secure_cookie_initialize_ret w) ;;
      check error ;;
      (* initialize the session proxy *)
      error <- call EvSessionProxyInitialize (session_proxy_initialize_ret w) ;;
      check error
  | HandlersRegistered =>
      (* initialize http server *)
      error <- httpServerInit w ;;
      check error ;;
      (* add handlers and initialize addins (offline has distinct behavior) *)
      if serverOffline options then
        emit EvOfflineAddHandlers
      else
        (* add handlers *)
        httpServerAddHandlers w ;;
        (* initialize addins *)
        error <- call EvAddinsInitialize (addins_initialize_ret w) ;;
        check error ;;
        (* initialize pam auth if we don't already have an auth handler *)
        registered <- call EvAuthIsRegistered (auth_handler_isRegistered w) ;;
        if negb registered then
          error <- call EvPamAuthInitialize (pam_auth_initialize_ret w) ;;
          check error
        else ret tt
  | AppArmorEnforced =>
      (* enforce restricted mode if we are running under app armor *)
      if serverAppArmorEnabled options then
        error <- call EvEnforceRestricted (enforceRestricted_ret w) ;;
        when (isError error) (LOG_ERROR error)
      else ret tt
  | PrivilegeDropped =>
      (* give up root privilege if requested *)
      let runAsUser := serverUser options in
      if negb (empty runAsUser) then
        (* drop root priv *)
        error <- temporarilyDropPriv w runAsUser ;;
        check error
      else ret tt
  | Running =>
      (* run special verify installation mode if requested *)
      if verifyInstallation options then
        error <- call EvRunVerifyInstallationSession
                      (runVerifyInstallationSession_ret w) ;;
        check error ;;
        halt (Exited EXIT_SUCCESS)
      else
        (* run http server *)
        error <- call (EvServerRun (wwwThreadPoolSize options))
                      (server_run_ret w) ;;
        check error ;;
        (* wait for signals *)
        error <- waitForSignals w ;;
        check error ;;
        halt (Exited EXIT_SUCCESS)
  end.

Definition allPhases : list Phase :=
  [OptionsLoaded; Daemonized; EnvironmentDetected; ResourceLimitsSet;
   WorkingDirSet; CryptoInitialized; SecurityModulesInitialized;
   HandlersRegistered; AppArmorEnforced; PrivilegeDropped; Running].

(** The paragraphs one after the other, as long as none returns. *)
Fixpoint runPhases (w : World) (phs : list Phase) : M unit :=
  match phs with
  | [] => ret tt
  | ph :: phs' => phase w ph ;; runPhases w phs'
  end.

(** [main]: the [try] block, which every path leaves by [return] or by
    an exception; what follows the block is [return EXIT_FAILURE]. *)
Definition finish (r : Process * Flow unit) : Process * Halt :=
  match r with
  | (p, Stop h) => (p, h)
  | (p, Next _) => (p, Exited EXIT_FAILURE)
  end.

Definition main (w : World) : Process * Halt :=
  finish (runPhases w allPhases (startProcess w)).

(* ================================================================== *)
(** * The file handler in a secure asynchronous context *)

Section FileHandler.

Variables Request Response : Type.

(** [http::UriHandlerFunction], [void(const Request&, Response* )]: the
    handler fills the response it is pointed to. *)
Definition UriHandlerFunction : Type := Request -> Response -> Response.

(** [http::UriFilterFunction], [bool(const Request&, Response* )]. *)
Definition UriFilterFunction : Type := Request -> Response -> bool * Response.

(** [http::AsyncConnection]: the request, the response buffer, and what
    [writeResponse] has sent so far.  A handler that completes later
    hands the connection back with nothing sent yet. *)
Record AsyncConnection : Type := mkConnection {
  request : Request;
  response : Response;
  written : list Response
}.

Definition writeResponse (c : AsyncConnection) : AsyncConnection :=
  mkConnection (request c) (response c) (written c ++ [response c]).

(** [http::AsyncUriHandlerFunction]: acts on the connection it shares. *)
Definition AsyncUriHandlerFunction : Type :=
  AsyncConnection -> AsyncConnection.

(** [auth::SecureAsyncUriHandlerFunction]: the user name comes first. *)
Definition SecureAsyncUriHandlerFunction : Type :=
  string -> AsyncConnection -> AsyncConnection.

(** Collaborators of other translation units. *)
Variable supportedBrowserFilter : UriFilterFunction.
Variable auth_handler_mainPageFilter : UriFilterFunction.
Variable fileHandlerFunction :
  string -> string -> UriFilterFunction -> UriHandlerFunction.
Variable opts : Options.

(** [a && b] on two filters: the second runs only when the first
    accepted, on the response the first left. *)
Definition mainPageFilter : UriFilterFunction :=
  fun request pResponse =>
    let (ok, pResponse1) := supportedBrowserFilter request pResponse in
    if ok then auth_handler_mainPageFilter request pResponse1
    else (false, pResponse1).

Definition blockingFileHandler : UriHandlerFunction :=
  fileHandlerFunction (wwwLocalPath opts) "/" mainPageFilter.

(** [FileRequestHandler::handleRequest]. *)
Definition handleRequest (handler : UriHandlerFunction)
                         (pConnection : AsyncConnection) : AsyncConnection :=
  let filled :=
    mkConnection (request pConnection)
                 (handler (request pConnection) (response pConnection))
                 (written pConnection) in
  writeResponse filled.

(** [boost::bind(f, a, _1)]. *)
Definition bind_a_1 {A B C : Type} (f : A -> B -> C) (a : A) : B -> C :=
  fun x1 => f a x1.

(** [boost::bind(f, _2)]: a function of two arguments that passes on the
    second. *)
Definition bind_2 {A B C : Type} (f : B -> C) : A -> B -> C :=
  fun _ x2 => f x2.

Definition secureAsyncFileHandler : SecureAsyncUriHandlerFunction :=
  (* an async uri handler function from the stock blockingFileHandler *)
  let asyncFileHandler : AsyncUriHandlerFunction :=
    bind_a_1 handleRequest blockingFileHandler in
  (* bind out the first parameter (username) *)
  bind_2 asyncFileHandler.

End FileHandler.

Arguments request {Request Response} _.
Arguments response {Request Response} _.
Arguments written {Request Response} _.
Arguments mkConnection {Request Response} _ _ _.
Arguments writeResponse {Request Response} _.
Arguments handleRequest {Request Response} _ _.
Arguments mainPageFilter {Request Response} _ _ _ _.
Arguments blockingFileHandler {Request Response} _ _ _ _ _ _.
Arguments secureAsyncFileHandler {Request Response} _ _ _ _ _ _.

(* ================================================================== *)
(** * Vocabulary of the statements: phases of events *)

(** The phase whose paragraph makes the call; log lines belong to the
    paragraph that writes them. *)
Definition eventPhase (e : Event) : option Phase :=
  match e with
  | EvInitializeSystemLog _ _ | EvIgnoreSignal _ | EvOptionsRead =>
      Some OptionsLoaded
  | EvDaemonize | EvIgnoreTerminalSignals | EvSetUMask _ => Some Daemonized
  | EvREnvironmentInitialize | EvReportError _ => Some EnvironmentDetected
  | EvSetResourceLimit _ => Some ResourceLimitsSet
  | EvMakeCurrentPath _ => Some WorkingDirSet
  | EvCryptoInitialize => Some CryptoInitialized
  | EvSecureCookieInitialize | EvSessionProxyInitialize =>
      Some SecurityModulesInitialized
  | EvNewServer _ | EvSetAbortOnResourceError _ | EvServerInit _ _
  | EvOfflineAddHandlers | EvAddHandler _ _ | EvAddBlockingHandler _ _
  | EvSetDefaultHandler _ | EvSetBlockingDefaultHandler _
  | EvAddScheduledCommand _ | EvAddinsInitialize | EvAuthIsRegistered
  | EvPamAuthInitialize => Some HandlersRegistered
  | EvEnforceRestricted => Some AppArmorEnforced
  | EvTemporarilyDropPriv _ => Some PrivilegeDropped
  | EvRunVerifyInstallationSession | EvServerRun _ | EvSigaction _ _
  | EvSigmaskBlock _ | EvSigwait | EvNotifySIGCHLD | EvClearSignalMask
  | EvKill _ => Some Running
  | EvLogError _ | EvLogWarningMessage _ | EvCatchUnexpectedException => None
  end.

Definition phaseIndex (ph : Phase) : nat :=
  match ph with
  | OptionsLoaded => 0
  | Daemonized => 1
  | EnvironmentDetected => 2
  | ResourceLimitsSet => 3
  | WorkingDirSet => 4
  | CryptoInitialized => 5
  | SecurityModulesInitialized => 6
  | HandlersRegistered => 7
  | AppArmorEnforced => 8
  | PrivilegeDropped => 9
  | Running => 10
  end%nat.

(** The paragraphs of [main] before [ph]. *)
Definition before (ph : Phase) : list Phase := firstn (phaseIndex ph) allPhases.

(** The run of [main] gets as far as the paragraph of [ph]: every
    paragraph before it falls through. *)
Definition reaches (w : World) (ph : Phase) (p : Process) : Prop :=
  runPhases w (before ph) (startProcess w) = (p, Next tt).

Definition isServerRun (e : Event) : bool :=
  match e with
  | EvServerRun _ => true
  | _ => false
  end.

Module Linux.

(** signal(7): SIGCHLD, SIGCONT, SIGURG and SIGWINCH are ignored by
    default, SIGSTOP, SIGTSTP, SIGTTIN and SIGTTOU stop the process. *)
Definition defaultAction (sig : Z) : DefaultAction :=
  if (sig =? 17) || (sig =? 18) || (sig =? 23) || (sig =? 28) then Discard
  else if (sig =? 19) || (sig =? 20) || (sig =? 21) || (sig =? 22) then Suspend
  else Terminate.

Definition numberToString (n : Z) : string :=
  NilZero.string_of_int (Z.to_int n).

(** Signal numbers of Linux on x86 and ARM. *)
Definition platform : Platform :=
  mkPlatform 17 2 3 15 defaultAction "/unsupported_browser.htm"
             numberToString.

End Linux.

(** The event is a log line or a call of a phase that [R] relates to
    [ph]. *)
Definition phaseIs (R : nat -> nat -> bool) (ph : Phase) (e : Event) : bool :=
  match eventPhase e with
  | Some ph' => R (phaseIndex ph') (phaseIndex ph)
  | None => true
  end.

Definition earlier : Phase -> Event -> bool := phaseIs Nat.ltb.
Definition within : Phase -> Event -> bool := phaseIs Nat.eqb.
Definition later : Phase -> Event -> bool := phaseIs (fun a b => b <? a)%nat.
Definition notLater : Phase -> Event -> bool := phaseIs Nat.leb.

(** The event is a log line or a call of one of the phases [phs]. *)
Definition among (phs : list Phase) (e : Event) : bool :=
  match eventPhase e with
  | Some ph' => existsb (fun ph => phaseIndex ph' =? phaseIndex ph)%nat phs
  | None => true
  end.

(** The paragraphs of [main] after [ph]. *)
Definition after (ph : Phase) : list Phase :=
  skipn (S (phaseIndex ph)) allPhases.

(** Every run of [c] appends to the trace, and only events in [P]. *)
Definition emits {A : Type} (P : Event -> bool) (c : M A) : Prop :=
  forall p p' r, c p = (p', r) ->
    exists t, trace p' = trace p ++ t /\ forallb P t = true.

(** [f] leaves the trace alone. *)
Definition silent {A : Type} (c : M A) : Prop :=
  forall p p' r, c p = (p', r) -> trace p' = trace p.

(** [c] keeps the relation [I] between the process before and after, and
    ends the run only in a way [S] allows. *)
Definition keeps {A : Type} (I : Process -> Process -> Prop)
           (S : Halt -> Prop) (c : M A) : Prop :=
  forall p p' r, c p = (p', r) ->
    I p p' /\ (forall h, r = Stop h -> S h).

(** Returning from [main] is the only way a run ends. *)
Definition returns (h : Halt) : Prop := exists code, h = Exited code.

Definition isNotifySIGCHLD (e : Event) : bool :=
  match e with
  | EvNotifySIGCHLD => true
  | _ => false
  end.

(** [sigwait] succeeded and returned the child-exit signal. *)
Definition isChildExit (pf : Platform) (wk : Wakeup) : bool :=
  (sigwait_result wk =? 0) && (sigwait_sig wk =? SIGCHLD pf).

(** The returns of [sigwait] the loop gets to see: it sees the next one
    only when the turn before fell off the end of the loop body. *)
Fixpoint observed (pf : Platform) (wks : list Wakeup) (p : Process)
  : list Wakeup :=
  match wks with
  | [] => []
  | wk :: wks' =>
      wk :: match loopBody pf wk p with
            | (p', Next None) => observed pf wks' p'
            | _ => []
            end
  end.

(** The log line written when [failed] holds. *)
Definition logIf (failed : bool) (e : Error) : list Event :=
  if failed then [EvLogError e] else [].


(** The event is a call made by the paragraph of [ph]. *)
Definition callOf (ph : Phase) (e : Event) : bool :=
  match eventPhase e with
  | Some ph' => (phaseIndex ph' =? phaseIndex ph)%nat
  | None => false
  end.

Definition isPamAuthInitialize (e : Event) : bool :=
  match e with
  | EvPamAuthInitialize => true
  | _ => false
  end.

Definition isAuthIsRegistered (e : Event) : bool :=
  match e with
  | EvAuthIsRegistered => true
  | _ => false
  end.

(** The credentials of the process are what they were. *)
Definition sameCred (p p' : Process) : Prop := cred p' = cred p.

(* ================================================================== *)
(** * Concrete runs *)

Module Sample.

(** rserver as an init script starts it: as root, to run as
    rstudio-server, with AppArmor. *)
Definition opts : Options :=
  mkOptions false "/" false true "rstudio-server" false
            "0.0.0.0" "8787" "/usr/lib/rstudio-server/www" 2.

Definition verifyOpts : Options :=
  mkOptions false "/" false true "rstudio-server" true
            "0.0.0.0" "8787" "/usr/lib/rstudio-server/www" 2.

Definition make (o : Options) (crypto : bool) (cookie : Error)
           (registered : bool) (enforce drop : Error)
           (wks : list Wakeup) : World :=
  mkWorld Linux.platform (mkCred 0 0 0) [] (fun _ => SIG_DFL)
          Success (mkStatus false 0) o Success Success true ""
          Success Success crypto cookie Success Success Success registered
          Success enforce 999 drop Success Success 0 0 0 wks.

(** Everything answers well and no signal arrives. *)
Definition healthy : World := make opts true Success false Success Success [].

(** The crypto initialisation did not succeed. *)
Definition cryptoFails : World :=
  make opts false Success false Success Success [].

(** The secure-cookie module fails to initialise. *)
Definition cookieFails : World :=
  make opts true (mkError 2) false Success Success [].

(** AppArmor cannot be enforced and the privilege drop fails. *)
Definition dropFails : World :=
  make opts true Success false (mkError 13) (mkError 1) [].

(** Verify-installation mode. *)
Definition verifying : World :=
  make verifyOpts true Success false Success Success [].

(** An authentication provider has registered itself. *)
Definition providerRegistered : World :=
  make opts true Success true Success Success [].

Definition wkSIGCHLD : Wakeup := mkWakeup 0 17 [] Success 0.


(** The process blocked in the loop of [waitForSignals]. *)
Definition blockedProcess : Process :=
  mkProcess [] (mkCred 0 999 0) [17; 2; 3; 15]
            (fun s => if s =? 17 then Handler "handleSIGCHLD" else SIG_DFL).

End Sample.

(* ================================================================== *)
(** * Vocabulary of further properties *)

(** The prefix a call registers a handler for. *)
Definition registeredPrefix (e : Event) : option string :=
  match e with
  | EvAddHandler prefix _ => Some prefix
  | EvAddBlockingHandler prefix _ => Some prefix
  | _ => None
  end.

(** The prefixes registered in a trace, in order. *)
Fixpoint prefixes (t : list Event) : list string :=
  match t with
  | [] => []
  | e :: t' =>
      match registeredPrefix e with
      | Some prefix => prefix :: prefixes t'
      | None => prefixes t'
      end
  end.

Definition isSetDefault (e : Event) : bool :=
  match e with
  | EvSetDefaultHandler _ | EvSetBlockingDefaultHandler _ => true
  | _ => false
  end.

(** No string occurs twice. *)
Fixpoint distinct (l : list string) : bool :=
  match l with
  | [] => true
  | s :: l' => negb (existsb (String.eqb s) l') && distinct l'
  end.

(** The prefixes [httpServerAddHandlers] spells out; the one it takes
    from [kBrowserUnsupported] is not among them. *)
Definition spelledOutPrefixes : list string :=
  ["/rpc"; "/events"; "/graphics"; "/upload"; "/export"; "/source";
   "/content"; "/diff"; "/file_show"; "/view_pdf"; "/agreement";
   "/presentation"; "/help"; "/files"; "/custom"; "/session"; "/docs";
   "/html_preview"; "/log"; "/progress"; "/templates"].

(** The call goes through [s_pHttpServer] to add to or start the server. *)
Definition usesServer (e : Event) : bool :=
  match e with
  | EvAddHandler _ _ | EvAddBlockingHandler _ _ | EvSetDefaultHandler _
  | EvSetBlockingDefaultHandler _ | EvAddScheduledCommand _
  | EvOfflineAddHandlers | EvServerRun _ => true
  | _ => false
  end.

(** Reading a trace from the left: the server is used only once its
    [init] has been called and has answered without error. *)
Fixpoint serverReady (w : World) (ready : bool) (t : list Event) : bool :=
  match t with
  | [] => true
  | EvServerInit _ _ :: t' =>
      serverReady w (negb (isError (server_init_ret w))) t'
  | e :: t' => (if usesServer e then ready else true) && serverReady w ready t'
  end.

(** Reading a trace from the left, the phases of the calls never go
    down; [lo] is the phase index reached so far. *)
Fixpoint inOrder (lo : nat) (t : list Event) : bool :=
  match t with
  | [] => true
  | e :: t' =>
      match eventPhase e with
      | Some ph => (lo <=? phaseIndex ph)%nat && inOrder (phaseIndex ph) t'
      | None => inOrder lo t'
      end
  end.

(** The event reports an error: a log line of an error that is set, or
    the report of [program_options::reportError]. *)
Definition isReport (e : Event) : bool :=
  match e with
  | EvLogError error => isError error
  | EvReportError _ => true
  | _ => false
  end.

(** The last event of the trace reports an error. *)
Definition lastReport (t : list Event) : bool :=
  match rev t with
  | e :: _ => isReport e
  | [] => false
  end.

(** The last event of the trace is the [catch] clause of [main]. *)
Definition lastCaught (t : list Event) : bool :=
  match rev t with
  | EvCatchUnexpectedException :: _ => true
  | _ => false
  end.

(** Delivering [sig] to [p] ends the process. *)
Definition fatal (pf : Platform) (p : Process) (sig : Z) : bool :=
  match disposition p sig, defaultAction pf sig with
  | SIG_DFL, Terminate => true
  | _, _ => false
  end.

(** The signal that ends [p] when its mask is cleared with [pending]
    held back, if one does. *)
Definition firstFatal (pf : Platform) (p : Process) (pending : list Z)
  : option Z :=
  find (fatal pf p) (filter (fun sig => blocked sig p) pending).

(** [sigwait] succeeded with something else than a termination signal. *)
Definition benign (pf : Platform) (wk : Wakeup) : bool :=
  (sigwait_result wk =? 0) && negb (isTerminationSignal pf (sigwait_sig wk)).

Definition isSigwait (e : Event) : bool :=
  match e with
  | EvSigwait => true
  | _ => false
  end.

(** The event is not a [kill], or a [kill] with a termination signal. *)
Definition killsTermination (pf : Platform) (e : Event) : bool :=
  match e with
  | EvKill sig => isTerminationSignal pf sig
  | _ => true
  end.

(** A call that only the branch of [main] for a server that is not
    offline makes. *)
Definition isOnlineOnly (e : Event) : bool :=
  match e with
  | EvAddHandler _ _ | EvAddBlockingHandler _ _
  | EvSetBlockingDefaultHandler _ | EvAddinsInitialize | EvAuthIsRegistered
  | EvPamAuthInitialize => true
  | _ => false
  end.

Definition isOfflineAddHandlers (e : Event) : bool :=
  match e with
  | EvOfflineAddHandlers => true
  | _ => false
  end.

Definition isSetResourceLimit (e : Event) : bool :=
  match e with
  | EvSetResourceLimit _ => true
  | _ => false
  end.

Definition isServerInit (e : Event) : bool :=
  match e with
  | EvServerInit _ _ => true
  | _ => false
  end.

(** The phases go up, from [lo] on. *)
Fixpoint ascending (lo : nat) (phs : list Phase) : bool :=
  match phs with
  | [] => true
  | ph :: phs' => (lo <=? phaseIndex ph)%nat && ascending (S (phaseIndex ph)) phs'
  end.

(** [c] ends a run only in a way and in a state that [Q] allows. *)
Definition ends {A : Type} (Q : Process -> Halt -> Prop) (c : M A) : Prop :=
  forall p p' h, c p = (p', Stop h) -> Q p' h.

(** [c] hands on only values that [N] allows. *)
Definition yields {A : Type} (N : A -> Prop) (c : M A) : Prop :=
  forall p p' a, c p = (p', Next a) -> N a.

(** [c] always goes on, and hands on [a]. *)
Definition gives {A : Type} (a : A) (c : M A) : Prop :=
  forall p, snd (c p) = Next a.

(** When [main] returns EXIT_SUCCESS after the bootstrap: the
    verify-installation check succeeded, or, with the server started,
    [sigaction] for SIGCHLD failed while [errno] was 0. *)
Definition successCondition (w : World) : Prop :=
  (verifyInstallation (options w) = true /\
   isError (runVerifyInstallationSession_ret w) = false)
  \/ (verifyInstallation (options w) = false /\
      sigaction_SIGCHLD_ret w <> 0 /\ sigaction_SIGCHLD_errno w = 0).

(** How the signal loop may end the run: the process dies of a signal or
    stays blocked in [sigwait]; the loop itself never leaves [main]. *)
Definition loopEnds (p : Process) (h : Halt) : Prop :=
  match h with
  | Exited _ => False
  | KilledBy _ | BlockedInSigwait => True
  end.

(** How a run of [main] may end. *)
Definition mainEnds (w : World) (p : Process) (h : Halt) : Prop :=
  match h with
  | Exited code =>
      (exit (options_read_ret w) = true /\
       code = exitCode (options_read_ret w))
      \/ (code = EXIT_FAILURE /\
          (lastReport (trace p) = true \/ lastCaught (trace p) = true))
      \/ (code = EXIT_SUCCESS /\ successCondition w)
  | _ => loopEnds p h
  end.

Module Scenario.

(** [sigwait] fails with EINTR. *)
Definition sigwaitFails : World :=
  Sample.make Sample.opts true Success false Success Success
              [Sample.wkSIGCHLD; mkWakeup 4 0 [] Success 0; Sample.wkSIGCHLD].

(** The server is started by an unprivileged user, offline. *)
Definition offline : World :=
  mkWorld Linux.platform (mkCred 1000 1000 1000) [] (fun _ => SIG_DFL)
          Success (mkStatus false 0)
          (mkOptions false "/" true false "" false
                     "127.0.0.1" "8787" "/usr/lib/rstudio-server/www" 2)
          Success Success true "" Success Success true Success Success
          Success Success false Success Success 0 Success Success Success
          0 0 0 [].

(** Verify-installation mode, and the self-check fails. *)
Definition verifyFails : World :=
  mkWorld Linux.platform (mkCred 0 0 0) [] (fun _ => SIG_DFL)
          Success (mkStatus false 0) Sample.verifyOpts
          Success Success true "" Success Success true Success Success
          Success Success false Success Success 999 Success (mkError 5)
          Success 0 0 0 [].

(** [--help]: the options ask to exit. *)
Definition help : World :=
  mkWorld Linux.platform (mkCred 0 0 0) [] (fun _ => SIG_DFL)
          (mkError 22) (mkStatus true 0) Sample.opts
          Success Success true "" Success Success true Success Success
          Success Success false Success Success 999 Success Success Success
          0 0 0 [].

(** R cannot be found. *)
Definition noR : World :=
  mkWorld Linux.platform (mkCred 0 0 0) [] (fun _ => SIG_DFL)
          Success (mkStatus false 0) Sample.opts
          Success Success false "Unable to find an installation of R"
          Success Success true Success Success
          Success Success false Success Success 999 Success Success Success
          0 0 0 [].

(** [sigaction] for SIGCHLD fails (EINVAL). *)
Definition sigactionFails : World :=
  mkWorld Linux.platform (mkCred 0 0 0) [] (fun _ => SIG_DFL)
          Success (mkStatus false 0) Sample.opts
          Success Success true "" Success Success true Success Success
          Success Success false Success Success 999 Success Success Success
          (-1) 22 0 [Sample.wkSIGCHLD].

(** [pthread_sigmask] fails (EINVAL). *)
Definition sigmaskFails : World :=
  mkWorld Linux.platform (mkCred 0 0 0) [] (fun _ => SIG_DFL)
          Success (mkStatus false 0) Sample.opts
          Success Success true "" Success Success true Success Success
          Success Success false Success Success 999 Success Success Success
          0 0 22 [Sample.wkSIGCHLD].

End Scenario.

(* ================================================================== *)
(** * What a computation adds to the trace *)

Lemma emits_silent {A : Type} (P : Event -> bool) (c : M A) :
  silent c -> emits P c.
Proof.
  intros Hs p p' r H. exists []. rewrite app_nil_r. split.
  - exact (Hs _ _ _ H).
  - reflexivity.
Qed.

Lemma emits_ret {A : Type} (P : Event -> bool) (a : A) : emits P (ret a).
Proof. apply emits_silent. intros p p' r H. inversion H. reflexivity. Qed.

Lemma emits_halt {A : Type} (P : Event -> bool) (h : Halt) :
  emits P (@halt A h).
Proof. apply emits_silent. intros p p' r H. inversion H. reflexivity. Qed.

Lemma emits_emit (P : Event -> bool) (e : Event) :
  P e = true -> emits P (emit e).
Proof.
  intros He p p' r H. inversion H. subst. exists [e]. simpl.
  rewrite He. split; reflexivity.
Qed.

Lemma emits_bind {A B : Type} (P : Event -> bool) (c : M A) (k : A -> M B) :
  emits P c -> (forall a, emits P (k a)) -> emits P (bind c k).
Proof.
  intros Hc Hk p p' r H. unfold bind in H.
  destruct (c p) as [p1 [a | h]] eqn:E.
  - destruct (Hc _ _ _ E) as [t1 [E1 F1]].
    destruct (Hk a _ _ _ H) as [t2 [E2 F2]].
    exists (t1 ++ t2). rewrite E2, E1, app_assoc, forallb_app, F1, F2.
    split; reflexivity.
  - inversion H. subst. exact (Hc _ _ _ E).
Qed.

Lemma emits_weaken {A : Type} (P Q : Event -> bool) (c : M A) :
  (forall e, P e = true -> Q e = true) -> emits P c -> emits Q c.
Proof.
  intros HPQ Hc p p' r H. destruct (Hc _ _ _ H) as [t [E F]].
  exists t. split; [exact E |].
  rewrite forallb_forall in *. auto.
Qed.

(** Delivering signals changes nothing in a process that lives on, and
    the first fatal one ends it. *)
Lemma deliverAll_find (pf : Platform) (sigs : list Z) (p : Process) :
  deliverAll pf sigs p =
  match find (fatal pf p) sigs with
  | Some sig => (p, Stop (KilledBy sig))
  | None => (p, Next tt)
  end.
Proof.
  induction sigs as [| sig sigs IH]; [reflexivity |].
  cbn [deliverAll find]. unfold bind, deliver, fatal at 1.
  destruct (disposition p sig); [destruct (defaultAction pf sig) | |];
    first [reflexivity | exact IH].
Qed.

Lemma unblockAll_run (pf : Platform) (pending : list Z) (p : Process) :
  unblockAll pf pending p =
  match firstFatal pf p pending with
  | Some sig => (set_sigmask [] p, Stop (KilledBy sig))
  | None => (set_sigmask [] p, Next tt)
  end.
Proof. unfold unblockAll, firstFatal. rewrite deliverAll_find. reflexivity. Qed.

Lemma unblockAll_silent (pf : Platform) (pending : list Z) :
  silent (unblockAll pf pending).
Proof.
  intros p p' r H. rewrite unblockAll_run in H.
  destruct (firstFatal pf p pending); inversion H; reflexivity.
Qed.

(** A state change that is not a call: the trace stays as it is. *)
Ltac silence :=
  let H := fresh "H" in
  intros ? ? ? H;
  repeat match type of H with
         | context [if ?b then _ else _] => destruct b
         | context [match ?x with _ => _ end] => destruct x
         end;
  inversion H; subst; reflexivity.

Ltac emits_step :=
  match goal with
  | |- emits _ (bind _ _) => apply emits_bind; [| intro]
  | |- emits _ (ret _) => apply emits_ret
  | |- emits _ (halt _) => apply emits_halt
  | |- emits _ (emit _) => apply emits_emit; reflexivity
  | |- emits _ (if ?b then _ else _) => destruct b
  | |- emits _ (match ?x with _ => _ end) => destruct x
  | |- emits _ (unblockAll _ _) => apply emits_silent, unblockAll_silent
  | |- emits _ (fun _ => _) => apply emits_silent; silence
  end.

Ltac emits_tac :=
  unfold call, when, check, exitFailure, throw, LOG_ERROR,
    LOG_WARNING_MESSAGE,
    realUserIsRoot, temporarilyDropPriv, clearSignalMask, sigaction,
    pthread_sigmask_block, kill, deliver, httpServerInit,
    httpServerAddHandlers,
    uri_handlers.add, uri_handlers.addBlocking, uri_handlers.setBlockingDefault;
  repeat emits_step.

(** Runs the monad on a process, leaving the tests of the source in
    place. *)
Ltac run :=
  cbv beta iota zeta delta
      [bind emit ret halt call when check exitFailure throw LOG_ERROR
       LOG_WARNING_MESSAGE trace cred sigmask disposition
       set_cred set_sigmask realUserIsRoot negb].

Lemma loopBody_emits (pf : Platform) (wk : Wakeup) :
  emits (within Running) (loopBody pf wk).
Proof. unfold loopBody. emits_tac. Qed.

Lemma waitLoop_emits (pf : Platform) (wks : list Wakeup) :
  emits (within Running) (waitLoop pf wks).
Proof.
  induction wks as [| wk wks IH]; simpl.
  - apply emits_halt.
  - apply emits_bind; [apply loopBody_emits |].
    intros [error |]; [apply emits_ret | exact IH].
Qed.

Lemma waitForSignals_emits (w : World) :
  emits (within Running) (waitForSignals w).
Proof.
  unfold waitForSignals.
  repeat first [apply waitLoop_emits | progress emits_tac].
Qed.

(** Every paragraph makes calls of its own phase only. *)
Lemma phase_emits (w : World) (ph : Phase) : emits (within ph) (phase w ph).
Proof.
  destruct ph; unfold phase;
    repeat first [apply waitForSignals_emits | progress emits_tac].
Qed.

Lemma within_among (ph : Phase) (phs : list Phase) (e : Event) :
  In ph phs -> within ph e = true -> among phs e = true.
Proof.
  unfold within, among, phaseIs. intros Hin.
  destruct (eventPhase e) as [ph' |]; [| reflexivity].
  intros H. apply existsb_exists. exists ph. split; assumption.
Qed.

Lemma among_incl (phs phs' : list Phase) (e : Event) :
  incl phs phs' -> among phs e = true -> among phs' e = true.
Proof.
  unfold among. destruct (eventPhase e) as [ph' |]; [| reflexivity].
  intros Hi H. apply existsb_exists in H. destruct H as [ph [Hin Heq]].
  apply existsb_exists. exists ph. split; [apply Hi; exact Hin | exact Heq].
Qed.

Lemma runPhases_emits (w : World) (phs : list Phase) :
  emits (among phs) (runPhases w phs).
Proof.
  induction phs as [| ph phs IH]; simpl.
  - apply emits_ret.
  - apply emits_bind.
    + apply emits_weaken with (P := within ph); [| apply phase_emits].
      intros e. apply within_among. left. reflexivity.
    + intros _. apply emits_weaken with (P := among phs); [| exact IH].
      intros e. apply among_incl. intros x Hx. right. exact Hx.
Qed.

(* ================================================================== *)
(** * The order of the phases in a run of main *)

Lemma allPhases_split (ph : Phase) : allPhases = before ph ++ ph :: after ph.
Proof. destruct ph; reflexivity. Qed.

Lemma among_before (ph : Phase) (e : Event) :
  among (before ph) e = true -> earlier ph e = true.
Proof.
  unfold among, earlier, phaseIs.
  destruct (eventPhase e) as [ph' |]; [| reflexivity].
  destruct ph, ph'; cbn; intros H; first [reflexivity | discriminate H].
Qed.

Lemma among_after (ph : Phase) (e : Event) :
  among (after ph) e = true -> later ph e = true.
Proof.
  unfold among, later, phaseIs.
  destruct (eventPhase e) as [ph' |]; [| reflexivity].
  destruct ph, ph'; cbn; intros H; first [reflexivity | discriminate H].
Qed.

Lemma forallb_impl {A : Type} (P Q : A -> bool) (l : list A) :
  (forall a, P a = true -> Q a = true) ->
  forallb P l = true -> forallb Q l = true.
Proof. rewrite !forallb_forall. auto. Qed.

Lemma runPhases_app (w : World) (l1 l2 : list Phase) (p : Process) :
  runPhases w (l1 ++ l2) p =
  match runPhases w l1 p with
  | (p1, Next _) => runPhases w l2 p1
  | (p1, Stop h) => (p1, Stop h)
  end.
Proof.
  revert p. induction l1 as [| ph l1 IH]; intros p; simpl.
  - reflexivity.
  - unfold bind. destruct (phase w ph p) as [p1 [[] | h]]; [apply IH | reflexivity].
Qed.

Section Keeps.

Variable I : Process -> Process -> Prop.
Variable S : Halt -> Prop.
Hypothesis I_refl : forall p, I p p.
Hypothesis I_trans : forall p q r, I p q -> I q r -> I p r.

Lemma keeps_ret {A : Type} (a : A) : keeps I S (ret a).
Proof.
  intros p p' r H. inversion H. subst. split; [apply I_refl |].
  intros h Hh. discriminate Hh.
Qed.

Lemma keeps_halt {A : Type} (h : Halt) : S h -> keeps I S (@halt A h).
Proof.
  intros Hs p p' r H. inversion H. subst. split; [apply I_refl |].
  intros h' Hh. inversion Hh. subst. exact Hs.
Qed.

Lemma keeps_emit (e : Event) :
  (forall p, I p (fst (emit e p))) -> keeps I S (emit e).
Proof.
  intros Hi p p' r H. inversion H. subst. split; [apply (Hi p) |].
  intros h Hh. discriminate Hh.
Qed.

Lemma keeps_bind {A B : Type} (c : M A) (k : A -> M B) :
  keeps I S c -> (forall a, keeps I S (k a)) -> keeps I S (bind c k).
Proof.
  intros Hc Hk p p' r H. unfold bind in H.
  destruct (c p) as [p1 [a | h]] eqn:E.
  - destruct (Hc _ _ _ E) as [I1 _]. destruct (Hk a _ _ _ H) as [I2 S2].
    split; [exact (I_trans _ _ _ I1 I2) | exact S2].
  - inversion H. subst. destruct (Hc _ _ _ E) as [I1 S1].
    split; [exact I1 |].
    intros h' Hh. inversion Hh. subst. apply S1. reflexivity.
Qed.

Lemma keeps_unblockAll (pf : Platform) (pending : list Z) :
  (forall p, I p (set_sigmask [] p)) -> (forall sig, S (KilledBy sig)) ->
  keeps I S (unblockAll pf pending).
Proof.
  intros Hi Hs p p' r H. rewrite unblockAll_run in H.
  destruct (firstFatal pf p pending); inversion H; subst;
    (split; [apply Hi |]); intros h Hh; inversion Hh. apply Hs.
Qed.

End Keeps.

Ltac side :=
  solve [ auto
        | intros; reflexivity
        | eexists; reflexivity
        | intros; etransitivity; eassumption ].

Ltac returns_step :=
  match goal with
  | |- keeps _ _ (bind _ _) => apply keeps_bind; [side | | intro]
  | |- keeps _ _ (ret _) => apply keeps_ret; side
  | |- keeps _ _ (halt _) => apply keeps_halt; side
  | |- keeps _ _ (emit _) => apply keeps_emit; side
  | |- keeps _ _ (if ?b then _ else _) => destruct b
  | |- keeps _ _ (unblockAll _ _) => apply keeps_unblockAll; side
  | |- keeps _ _ (fun _ => _) =>
      let H := fresh "H" in
      intros ? ? ? H;
      repeat match type of H with
             | context [if ?b then _ else _] => destruct b
             | context [match ?x with _ => _ end] => destruct x
             end;
      inversion H; subst;
      (split; [side | intros ? ?; first [discriminate | exact Logic.I]])
  end.

Ltac returns_tac :=
  unfold httpServerInit, httpServerAddHandlers, uri_handlers.add,
    uri_handlers.addBlocking, uri_handlers.setBlockingDefault,
    temporarilyDropPriv, clearSignalMask, sigaction, pthread_sigmask_block,
    realUserIsRoot;
  unfold call, when, check, exitFailure, throw, LOG_ERROR,
    LOG_WARNING_MESSAGE;
  repeat returns_step.

(** Before the server runs, a paragraph ends the run only by returning
    from [main]. *)
Lemma phase_stop_exited (w : World) (ph : Phase) (p p' : Process) (h : Halt) :
  ph <> Running -> phase w ph p = (p', Stop h) -> exists code, h = Exited code.
Proof.
  intros Hph H.
  assert (K : keeps (fun _ _ => True) returns (phase w ph)).
  { destruct ph; try (exfalso; apply Hph; reflexivity);
      unfold phase; returns_tac. }
  destruct (K _ _ _ H) as [_ Hs]. apply (Hs h). reflexivity.
Qed.

Lemma runPhases_stop_exited (w : World) (phs : list Phase) (p p' : Process)
      (h : Halt) :
  ~ In Running phs -> runPhases w phs p = (p', Stop h) ->
  exists code, h = Exited code.
Proof.
  revert p. induction phs as [| ph phs IH]; intros p Hn H; simpl in H.
  - inversion H.
  - unfold bind in H. destruct (phase w ph p) as [p1 [[] | h1]] eqn:E.
    + apply (IH p1); [| exact H]. intros Hin. apply Hn. right. exact Hin.
    + inversion H. subst. apply (phase_stop_exited w ph p p' h); [| exact E].
      intros ->. apply Hn. left. reflexivity.
Qed.

Lemma before_not_Running (ph : Phase) : ~ In Running (before ph).
Proof.
  destruct ph; cbn; intros H;
    repeat (destruct H as [H | H]; [discriminate H |]); exact H.
Qed.

Lemma main_split (w : World) (ph : Phase) :
  main w =
  finish (match runPhases w (before ph) (startProcess w) with
          | (p, Next _) => bind (phase w ph) (fun _ => runPhases w (after ph)) p
          | (p, Stop h) => (p, Stop h)
          end).
Proof.
  unfold main. rewrite (allPhases_split ph) at 1.
  rewrite runPhases_app. reflexivity.
Qed.

(** How a run of [main] meets the paragraph of [ph]: it returns before it,
    or it reaches it with only earlier calls made, the paragraph makes
    calls of its own phase, and what follows is later. *)
Lemma main_cases (w : World) (ph : Phase) :
  (exists p code,
      runPhases w (before ph) (startProcess w) = (p, Stop (Exited code)) /\
      main w = (p, Exited code) /\
      forallb (earlier ph) (trace p) = true)
  \/
  (exists p p2 r2 t,
      reaches w ph p /\
      forallb (earlier ph) (trace p) = true /\
      phase w ph p = (p2, r2) /\
      trace p2 = trace p ++ t /\
      forallb (within ph) t = true /\
      match r2 with
      | Stop h => main w = (p2, h)
      | Next _ =>
          main w = finish (runPhases w (after ph) p2) /\
          exists t', trace (fst (main w)) = trace p2 ++ t' /\
                     forallb (later ph) t' = true
      end).
Proof.
  pose proof (main_split w ph) as Hm. unfold reaches.
  destruct (runPhases w (before ph) (startProcess w)) as [p [[] | h]] eqn:E.
  - right.
    destruct (runPhases_emits w (before ph) _ _ _ E) as [t0 [E0 F0]].
    simpl in E0.
    assert (Fp : forallb (earlier ph) (trace p) = true).
    { rewrite E0. revert F0. apply forallb_impl, among_before. }
    unfold bind in Hm.
    destruct (phase w ph p) as [p2 r2] eqn:E2.
    destruct (phase_emits w ph _ _ _ E2) as [t [Et Ft]].
    exists p, p2, r2, t. repeat split; try assumption.
    destruct r2 as [[] | h]; [| exact Hm].
    split; [exact Hm |].
    rewrite Hm.
    destruct (runPhases w (after ph) p2) as [p3 r3] eqn:E3.
    destruct (runPhases_emits w (after ph) _ _ _ E3) as [t' [Et' Ft']].
    exists t'. split.
    + destruct r3; exact Et'.
    + revert Ft'. apply forallb_impl, among_after.
  - left.
    destruct (runPhases_stop_exited w _ _ _ _ (before_not_Running ph) E)
      as [code ->].
    destruct (runPhases_emits w (before ph) _ _ _ E) as [t0 [E0 F0]].
    simpl in E0.
    exists p, code. repeat split; [exact Hm |].
    rewrite E0. revert F0. apply forallb_impl, among_before.
Qed.

(* ================================================================== *)
(** * The signal loop *)


Lemma waitLoop_next (pf : Platform) (wk : Wakeup) (wks : list Wakeup)
      (p p' : Process) :
  loopBody pf wk p = (p', Next None) ->
  waitLoop pf (wk :: wks) p = waitLoop pf wks p'.
Proof. intros H. simpl. unfold bind at 1. rewrite H. reflexivity. Qed.


(** The turn of the loop for a child-exit signal. *)
Lemma loopBody_child_exit (pf : Platform) (wk : Wakeup) (p : Process) :
  sigwait_result wk = 0 ->
  sigwait_sig wk = SIGCHLD pf ->
  loopBody pf wk p =
  (mkProcess (trace p ++ [EvSigwait; EvNotifySIGCHLD]) (cred p)
             (sigmask p) (disposition p), Next None).
Proof.
  intros Hres Hsig.
  unfold loopBody, call, bind, emit, ret. cbn.
  rewrite Hres. cbn. rewrite Hsig, !Z.eqb_refl. cbn.
  rewrite <- app_assoc. reflexivity.
Qed.

Lemma emits_bind_call {A B : Type} (P : Event -> bool) (e : Event) (a : A)
      (k : A -> M B) :
  P e = true -> emits P (k a) -> emits P (bind (call e a) k).
Proof.
  intros He Hk p p' r H. unfold call, bind, emit, ret in H. cbn in H.
  destruct (Hk _ _ _ H) as [t [Et Ft]]. cbn in Et.
  exists (e :: t). split.
  - rewrite Et, <- app_assoc. reflexivity.
  - cbn. rewrite He, Ft. reflexivity.
Qed.

(** A turn of the loop for anything else than a child-exit signal does
    not call [notifySIGCHLD]. *)
Lemma loopBody_no_notify (pf : Platform) (wk : Wakeup) :
  isChildExit pf wk = false ->
  emits (fun e => negb (isNotifySIGCHLD e)) (loopBody pf wk).
Proof.
  unfold isChildExit, loopBody. intros H.
  apply emits_bind_call; [reflexivity |].
  destruct (sigwait_result wk =? 0); cbn in H |- *; [| apply emits_ret].
  rewrite H. emits_tac.
Qed.

Lemma count_no_notify (t : list Event) :
  forallb (fun e => negb (isNotifySIGCHLD e)) t = true ->
  filter isNotifySIGCHLD t = [].
Proof.
  induction t as [| e t IH]; [reflexivity |].
  cbn. intros H. apply andb_true_iff in H. destruct H as [He Ht].
  destruct (isNotifySIGCHLD e); [discriminate He | exact (IH Ht)].
Qed.

(** One turn of the loop calls [notifySIGCHLD] once for a child-exit
    signal and not at all otherwise. *)
Lemma loopBody_notifies (pf : Platform) (wk : Wakeup) (p p' : Process)
      (r : Flow (option Error)) :
  loopBody pf wk p = (p', r) ->
  length (filter isNotifySIGCHLD (trace p')) =
  (length (filter isNotifySIGCHLD (trace p)) +
   (if isChildExit pf wk then 1 else 0))%nat.
Proof.
  intros H. destruct (isChildExit pf wk) eqn:E.
  - unfold isChildExit in E. apply andb_true_iff in E. destruct E as [Er Es].
    apply Z.eqb_eq in Er, Es.
    rewrite (loopBody_child_exit pf wk p Er Es) in H. inversion H. subst.
    cbn. rewrite filter_app, length_app. reflexivity.
  - destruct (loopBody_no_notify pf wk E _ _ _ H) as [t [Et Ft]].
    rewrite Et, filter_app, length_app, (count_no_notify t Ft).
    reflexivity.
Qed.

(** Over the whole life of the loop, [notifySIGCHLD] is called as many
    times as child-exit signals were observed. *)
Lemma waitLoop_notifies (pf : Platform) (wks : list Wakeup) :
  forall (p p' : Process) (r : Flow Error),
    waitLoop pf wks p = (p', r) ->
    length (filter isNotifySIGCHLD (trace p')) =
    (length (filter isNotifySIGCHLD (trace p)) +
     length (filter (isChildExit pf) (observed pf wks p)))%nat.
Proof.
  induction wks as [| wk wks IH]; intros p p' r H; simpl in H.
  - inversion H. subst. cbn. lia.
  - unfold bind in H. cbn [observed].
    destruct (loopBody pf wk p) as [p1 [[error |] | h]] eqn:E;
      pose proof (loopBody_notifies pf wk p p1 _ E) as Hn.
    + inversion H. subst. cbn [filter].
      destruct (isChildExit pf wk); cbn [length]; lia.
    + rewrite (IH _ _ _ H), Hn. cbn [filter].
      destruct (isChildExit pf wk); cbn [length]; lia.
    + inversion H. subst. cbn [filter].
      destruct (isChildExit pf wk); cbn [length]; lia.
Qed.

(** C4.  A child-exit signal returned by [sigwait] makes one turn of the
    loop call [notifySIGCHLD] exactly once; the signal mask and the
    dispositions are untouched, and the loop goes on to wait again. *)
Theorem C4_sigchld_notifies_once
        (pf : Platform) (wk : Wakeup) (wks : list Wakeup) (p : Process) :
  sigwait_result wk = 0 ->
  sigwait_sig wk = SIGCHLD pf ->
  exists p',
    loopBody pf wk p = (p', Next None) /\
    trace p' = trace p ++ [EvSigwait; EvNotifySIGCHLD] /\
    length (filter isNotifySIGCHLD (trace p')) =
      S (length (filter isNotifySIGCHLD (trace p))) /\
    sigmask p' = sigmask p /\
    disposition p' = disposition p /\
    waitLoop pf (wk :: wks) p = waitLoop pf wks p'.
Proof.
  intros Hres Hsig.
  pose proof (loopBody_child_exit pf wk p Hres Hsig) as E.
  eexists. split; [exact E |]. cbn.
  repeat split.
  - rewrite filter_app, length_app. cbn. lia.
  - apply waitLoop_next. exact E.
Qed.

Lemma C4_sigchld_notifies_once_witness :
  exists p',
    loopBody Linux.platform (mkWakeup 0 17 [] Success 0)
             (mkProcess [] (mkCred 0 999 0) [17; 2; 3; 15] (fun _ => SIG_DFL))
    = (p', Next None) /\
    trace p' = [] ++ [EvSigwait; EvNotifySIGCHLD] /\
    length (filter isNotifySIGCHLD (trace p')) = 1%nat /\
    sigmask p' = [17; 2; 3; 15] /\
    disposition p' = (fun _ => SIG_DFL) /\
    waitLoop Linux.platform [mkWakeup 0 17 [] Success 0]
             (mkProcess [] (mkCred 0 999 0) [17; 2; 3; 15] (fun _ => SIG_DFL))
    = waitLoop Linux.platform [] p'.
Proof.
  exact (C4_sigchld_notifies_once Linux.platform (mkWakeup 0 17 [] Success 0) []
           (mkProcess [] (mkCred 0 999 0) [17; 2; 3; 15] (fun _ => SIG_DFL))
           eq_refl eq_refl).
Defined.

(** C9.  A signal value returned by [sigwait] that is neither the
    child-exit signal nor a termination signal makes one turn of the loop
    log a warning and nothing else; the loop neither returns nor ends the
    process, it waits again with the signals still blocked. *)
Theorem C9_unexpected_signal_warns
        (pf : Platform) (wk : Wakeup) (wks : list Wakeup) (p : Process) :
  sigwait_result wk = 0 ->
  sigwait_sig wk <> SIGCHLD pf ->
  isTerminationSignal pf (sigwait_sig wk) = false ->
  exists p',
    loopBody pf wk p = (p', Next None) /\
    trace p' =
      trace p ++
      [EvSigwait;
       EvLogWarningMessage
         (String.append "Unexpected signal returned from sigwait: "
                        (numberToString pf (sigwait_sig wk)))] /\
    sigmask p' = sigmask p /\
    disposition p' = disposition p /\
    waitLoop pf (wk :: wks) p = waitLoop pf wks p'.
Proof.
  intros Hres Hchld Hterm.
  apply Z.eqb_neq in Hchld.
  assert (E : loopBody pf wk p =
              (mkProcess
                 (trace p ++
                  [EvSigwait;
                   EvLogWarningMessage
                     (String.append "Unexpected signal returned from sigwait: "
                                    (numberToString pf (sigwait_sig wk)))])
                 (cred p) (sigmask p) (disposition p), Next None)).
  { unfold loopBody, call, LOG_WARNING_MESSAGE, bind, emit, ret. cbn.
    rewrite Hres. cbn. rewrite Hchld, Hterm. cbn.
    rewrite <- app_assoc. reflexivity. }
  eexists. split; [exact E |]. cbn.
  repeat split. apply waitLoop_next. exact E.
Qed.

Lemma C9_unexpected_signal_warns_witness :
  exists p',
    loopBody Linux.platform (mkWakeup 0 10 [] Success 0)
             (mkProcess [] (mkCred 0 999 0) [17; 2; 3; 15] (fun _ => SIG_DFL))
    = (p', Next None) /\
    trace p' =
      [] ++ [EvSigwait;
             EvLogWarningMessage "Unexpected signal returned from sigwait: 10"] /\
    sigmask p' = [17; 2; 3; 15] /\
    disposition p' = (fun _ => SIG_DFL) /\
    waitLoop Linux.platform [mkWakeup 0 10 [] Success 0]
             (mkProcess [] (mkCred 0 999 0) [17; 2; 3; 15] (fun _ => SIG_DFL))
    = waitLoop Linux.platform [] p'.
Proof.
  refine (C9_unexpected_signal_warns Linux.platform (mkWakeup 0 10 [] Success 0) []
            (mkProcess [] (mkCred 0 999 0) [17; 2; 3; 15] (fun _ => SIG_DFL))
            eq_refl _ eq_refl).
  cbn. discriminate.
Defined.






(* ================================================================== *)
(** * The adapted file handler *)

(** C5.  For every synchronous handler and every connection,
    [handleRequest] runs the handler on the request and the response of
    that connection, leaves its result as the response, and has written
    that very response when it returns: one write more than before, and
    nothing left to complete later. *)
Theorem C5_blocking_handler_completes_at_once
        (Request Response : Type)
        (handler : UriHandlerFunction Request Response)
        (pConnection : AsyncConnection Request Response) :
  let done := bind_a_1 handleRequest handler pConnection in
  let filled := handler (request pConnection) (response pConnection) in
  request done = request pConnection /\
  response done = filled /\
  written done = written pConnection ++ [response done] /\
  length (written done) = S (length (written pConnection)).
Proof.
  cbv zeta. unfold bind_a_1, handleRequest, writeResponse. cbn.
  repeat split. rewrite length_app. cbn. lia.
Qed.

(** C10.  The secured asynchronous file handler ignores the user name it
    is called with: for every connection and any two user names it does
    the same, namely what the adapted blocking file handler does. *)
Theorem C10_file_handler_ignores_username
        (Request Response : Type)
        (supportedBrowserFilter auth_mainPageFilter :
           UriFilterFunction Request Response)
        (fileHandlerFunction :
           string -> string -> UriFilterFunction Request Response ->
           UriHandlerFunction Request Response)
        (o : Options)
        (username1 username2 : string)
        (pConnection : AsyncConnection Request Response) :
  let secure :=
    secureAsyncFileHandler supportedBrowserFilter auth_mainPageFilter
                           fileHandlerFunction o in
  secure username1 pConnection = secure username2 pConnection /\
  secure username1 pConnection =
    handleRequest
      (blockingFileHandler supportedBrowserFilter auth_mainPageFilter
                           fileHandlerFunction o)
      pConnection /\
  response (secure username1 pConnection) =
    fileHandlerFunction (wwwLocalPath o) "/"
      (mainPageFilter supportedBrowserFilter auth_mainPageFilter)
      (request pConnection) (response pConnection).
Proof. cbv zeta. repeat split. Qed.

(* ================================================================== *)
(** * Bootstrap: crypto and the security modules *)

Lemma earlier_notLater (ph : Phase) (e : Event) :
  earlier ph e = true -> notLater ph e = true.
Proof.
  unfold earlier, notLater, phaseIs. destruct (eventPhase e); [| reflexivity].
  intros H. apply Nat.ltb_lt in H. apply Nat.leb_le. lia.
Qed.

Lemma within_notLater (ph : Phase) (e : Event) :
  within ph e = true -> notLater ph e = true.
Proof.
  unfold within, notLater, phaseIs. destruct (eventPhase e); [| reflexivity].
  intros H. apply Nat.eqb_eq in H. apply Nat.leb_le. lia.
Qed.

Lemma notLater_no_call (ph ph' : Phase) (t : list Event) :
  (phaseIndex ph < phaseIndex ph')%nat ->
  forallb (notLater ph) t = true -> existsb (callOf ph') t = false.
Proof.
  intros Hlt H. induction t as [| e t IH]; [reflexivity |].
  cbn in H. apply andb_true_iff in H. destruct H as [He Ht].
  cbn. rewrite (IH Ht), orb_false_r.
  unfold notLater, phaseIs in He. unfold callOf.
  destruct (eventPhase e); [| reflexivity].
  apply Nat.leb_le in He. apply Nat.eqb_neq. lia.
Qed.

(** When the crypto initialisation throws, its paragraph ends in the
    [catch] clause of [main]. *)
Lemma crypto_paragraph_fails (w : World) (p : Process) :
  crypto_initialize_ok w = false ->
  phase w CryptoInitialized p =
  (mkProcess (trace p ++ [EvCryptoInitialize; EvCatchUnexpectedException])
             (cred p) (sigmask p) (disposition p),
   Stop (Exited EXIT_FAILURE)).
Proof.
  intros Hc. destruct p as [t0 c0 m0 d0]. unfold phase. run.
  rewrite Hc. run. rewrite <- app_assoc. reflexivity.
Qed.

Lemma before_split (ph ph' : Phase) :
  (phaseIndex ph < phaseIndex ph')%nat ->
  exists mid, before ph' = before ph ++ ph :: mid.
Proof.
  destruct ph, ph'; cbn; intros H; try lia; eexists; reflexivity.
Qed.

(** C2.  When the initialisation of the crypto subsystem fails (the call
    hands nothing back, so it fails by throwing), the run ends there:
    [main] returns, no paragraph after this one is reached, no call of a
    later phase is made and in particular no handler is registered; and
    when the run got as far as the crypto initialisation, that call is
    the last one before the [catch] clause and [main] returns
    EXIT_FAILURE. *)
Theorem C2_crypto_failure_is_fatal (w : World) :
  crypto_initialize_ok w = false ->
  (exists code, snd (main w) = Exited code) /\
  forallb (notLater CryptoInitialized) (trace (fst (main w))) = true /\
  existsb (callOf HandlersRegistered) (trace (fst (main w))) = false /\
  (forall ph q, (phaseIndex CryptoInitialized < phaseIndex ph)%nat ->
                ~ reaches w ph q) /\
  (forall p, reaches w CryptoInitialized p ->
             main w =
             (mkProcess
                (trace p ++ [EvCryptoInitialize; EvCatchUnexpectedException])
                (cred p) (sigmask p) (disposition p),
              Exited EXIT_FAILURE)).
Proof.
  intros Hfail.
  assert (Hmain :
    (exists code, snd (main w) = Exited code) /\
    forallb (notLater CryptoInitialized) (trace (fst (main w))) = true /\
    (forall p, reaches w CryptoInitialized p ->
               main w =
               (mkProcess
                  (trace p ++ [EvCryptoInitialize; EvCatchUnexpectedException])
                  (cred p) (sigmask p) (disposition p),
                Exited EXIT_FAILURE))).
  { destruct (main_cases w CryptoInitialized)
      as [[p [code [Hstop [Hm Hearly]]]]
         | [p [p2 [r2 [t [Hreach [Hearly [Hph [Ht [Hin Hrest]]]]]]]]]].
    - rewrite Hm. cbn. split; [exists code; reflexivity |]. split.
      + revert Hearly. apply forallb_impl, earlier_notLater.
      + intros q Hq. unfold reaches in Hq. rewrite Hq in Hstop.
        discriminate Hstop.
    - rewrite (crypto_paragraph_fails w p Hfail) in Hph.
      inversion Hph as [[Hp2 Hr2]]. subst r2. rewrite Hrest.
      split; [exists EXIT_FAILURE; reflexivity |]. split.
      + cbn [fst]. rewrite Ht, forallb_app. apply andb_true_iff. split.
        * revert Hearly. apply forallb_impl, earlier_notLater.
        * revert Hin. apply forallb_impl, within_notLater.
      + intros q Hq. unfold reaches in Hq, Hreach. rewrite Hreach in Hq.
        inversion Hq. subst q. rewrite <- Hp2. reflexivity. }
  destruct Hmain as [Hexit [Hnot Hreached]].
  split; [exact Hexit |]. split; [exact Hnot |].
  split; [apply (notLater_no_call CryptoInitialized); [cbn; lia | exact Hnot] |].
  split; [| exact Hreached].
  intros ph q Hlt Hr.
  destruct (before_split CryptoInitialized ph Hlt) as [mid Hb].
  unfold reaches in Hr. rewrite Hb, runPhases_app in Hr.
  destruct (runPhases w (before CryptoInitialized) (startProcess w))
    as [p0 [[] | h]]; [| discriminate Hr].
  change (runPhases w (CryptoInitialized :: mid))
    with (bind (phase w CryptoInitialized) (fun _ => runPhases w mid)) in Hr.
  unfold bind in Hr. rewrite (crypto_paragraph_fails w p0 Hfail) in Hr.
  discriminate Hr.
Qed.

Lemma C2_crypto_failure_is_fatal_witness :
  main Sample.cryptoFails =
  (mkProcess
     [EvInitializeSystemLog "rserver" "kLogLevelWarning";
      EvIgnoreSignal "SigPipe"; EvOptionsRead; EvREnvironmentInitialize;
      EvSetResourceLimit 4096; EvMakeCurrentPath "/";
      EvCryptoInitialize; EvCatchUnexpectedException]
     (mkCred 0 0 0) [] (start_disposition Sample.cryptoFails),
   Exited EXIT_FAILURE) /\
  existsb (callOf HandlersRegistered) (trace (fst (main Sample.cryptoFails)))
  = false.
Proof.
  destruct (C2_crypto_failure_is_fatal Sample.cryptoFails eq_refl)
    as [_ [_ [Hno [_ Hreach]]]].
  split; [| exact Hno].
  refine (Hreach
            (mkProcess
               [EvInitializeSystemLog "rserver" "kLogLevelWarning";
                EvIgnoreSignal "SigPipe"; EvOptionsRead;
                EvREnvironmentInitialize; EvSetResourceLimit 4096;
                EvMakeCurrentPath "/"]
               (mkCred 0 0 0) [] (start_disposition Sample.cryptoFails)) _).
  vm_compute. reflexivity.
Defined.

(** When one of the two security modules fails, their paragraph logs the
    error and returns EXIT_FAILURE. *)
Lemma security_modules_fail (w : World) (p : Process) :
  isError (secure_cookie_initialize_ret w)
  || isError (session_proxy_initialize_ret w) = true ->
  exists p2 t e,
    phase w SecurityModulesInitialized p = (p2, Stop (Exited EXIT_FAILURE)) /\
    isError e = true /\
    trace p2 = t ++ [EvLogError e].
Proof.
  intros H. unfold phase, call, check, exitFailure, bind, emit, ret, halt. cbn.
  destruct (isError (secure_cookie_initialize_ret w)) eqn:Ec; cbn.
  - eexists. eexists. exists (secure_cookie_initialize_ret w).
    split; [reflexivity |]. split; [exact Ec |]. reflexivity.
  - cbn in H. rewrite H. cbn.
    eexists. eexists. exists (session_proxy_initialize_ret w).
    split; [reflexivity |]. split; [exact H |]. reflexivity.
Qed.

(* ================================================================== *)
(** * Bootstrap: the fallback PAM authenticator *)

Lemma earlier_no_call (ph : Phase) (t : list Event) :
  forallb (earlier ph) t = true -> existsb (callOf ph) t = false.
Proof.
  intros H. induction t as [| e t IH]; [reflexivity |].
  cbn in *. apply andb_true_iff in H. destruct H as [He Ht].
  rewrite (IH Ht), orb_false_r.
  unfold earlier, phaseIs in He. unfold callOf.
  destruct (eventPhase e); [| reflexivity].
  apply Nat.ltb_lt in He. apply Nat.eqb_neq. lia.
Qed.

Lemma later_no_call (ph : Phase) (t : list Event) :
  forallb (later ph) t = true -> existsb (callOf ph) t = false.
Proof.
  intros H. induction t as [| e t IH]; [reflexivity |].
  cbn in *. apply andb_true_iff in H. destruct H as [He Ht].
  rewrite (IH Ht), orb_false_r.
  unfold later, phaseIs in He. unfold callOf.
  destruct (eventPhase e); [| reflexivity].
  apply Nat.ltb_lt in He. apply Nat.eqb_neq. lia.
Qed.

Lemma isPam_callOf (e : Event) :
  isPamAuthInitialize e = true -> callOf HandlersRegistered e = true.
Proof. destruct e; cbn; intros H; first [reflexivity | discriminate H]. Qed.

Lemma isAuthIsRegistered_callOf (e : Event) :
  isAuthIsRegistered e = true -> callOf HandlersRegistered e = true.
Proof. destruct e; cbn; intros H; first [reflexivity | discriminate H]. Qed.

(** What the paragraph that registers the handlers does about PAM when
    the server is not offline. *)
Lemma handlers_paragraph_pam (w : World) (p : Process) :
  serverOffline (options w) = false ->
  exists t p2 r2,
    phase w HandlersRegistered p = (p2, r2) /\
    trace p2 = trace p ++ t /\
    (existsb isPamAuthInitialize t = true <->
     existsb isAuthIsRegistered t = true /\
     auth_handler_isRegistered w = false) /\
    (length (filter isPamAuthInitialize t) <= 1)%nat.
Proof.
  intros Hoff. destruct p as [t0 c0 m0 d0].
  unfold phase, httpServerInit, httpServerAddHandlers, uri_handlers.add,
    uri_handlers.addBlocking, uri_handlers.setBlockingDefault.
  rewrite Hoff. run.
  destruct (isError (server_init_ret w)); run;
    [| destruct (isError (addins_initialize_ret w)); run;
       [| destruct (auth_handler_isRegistered w); run;
          [| destruct (isError (pam_auth_initialize_ret w)); run]]];
    eexists; eexists; eexists;
    (split; [reflexivity |]); run;
    (split; [rewrite <- !app_assoc; reflexivity |]); simpl;
    (split; [| lia]);
    (split; [intros H; first [discriminate H | split; reflexivity]
            | intros [H1 H2];
              first [discriminate H1 | discriminate H2 | reflexivity]]).
Qed.

Lemma no_call_filter (ph : Phase) (f : Event -> bool) (t : list Event) :
  (forall e, f e = true -> callOf ph e = true) ->
  existsb (callOf ph) t = false -> filter f t = [].
Proof.
  intros Hf H. induction t as [| e t IH]; [reflexivity |].
  cbn in *. apply orb_false_iff in H. destruct H as [He Ht].
  destruct (f e) eqn:E; [| exact (IH Ht)].
  rewrite (Hf e E) in He. discriminate He.
Qed.

Lemma existsb_as_filter (f : Event -> bool) (t : list Event) :
  existsb f t = existsb f (filter f t).
Proof.
  induction t as [| e t IH]; [reflexivity |].
  cbn. destruct (f e) eqn:E; cbn; [rewrite E; reflexivity | exact IH].
Qed.

(** The calls of one phase in a run of [main] are the calls its paragraph
    makes, if the run gets there, and none otherwise. *)
Lemma main_phase_calls (w : World) (ph : Phase) :
  (forall f, (forall e, f e = true -> callOf ph e = true) ->
             filter f (trace (fst (main w))) = [])
  \/
  (exists p p2 r2 t,
      reaches w ph p /\
      phase w ph p = (p2, r2) /\
      trace p2 = trace p ++ t /\
      forall f, (forall e, f e = true -> callOf ph e = true) ->
                filter f (trace (fst (main w))) = filter f t).
Proof.
  destruct (main_cases w ph)
    as [[p [code [Hstop [Hm Hearly]]]]
       | [p [p2 [r2 [t [Hreach [Hearly [Hph [Ht [Hin Hrest]]]]]]]]]].
  - left. intros f Hf. rewrite Hm. cbn.
    apply (no_call_filter ph f); [exact Hf | apply earlier_no_call, Hearly].
  - right. exists p, p2, r2, t. repeat split; try assumption.
    intros f Hf.
    assert (Hp : filter f (trace p) = []).
    { apply (no_call_filter ph f); [exact Hf | apply earlier_no_call, Hearly]. }
    destruct r2 as [[] | h].
    + destruct Hrest as [_ [t' [Ht' Hlater]]].
      rewrite Ht', Ht, !filter_app, Hp.
      rewrite (no_call_filter ph f t' Hf (later_no_call ph t' Hlater)).
      rewrite app_nil_r. reflexivity.
    + rewrite Hrest. cbn. rewrite Ht, filter_app, Hp. reflexivity.
Qed.

(** The fallback PAM authenticator is initialised only after the run
    has asked whether a provider is registered and got no for an answer,
    and never twice. *)
Lemma pam_only_after_asking (w : World) :
  serverOffline (options w) = false ->
  (existsb isPamAuthInitialize (trace (fst (main w))) = true <->
   existsb isAuthIsRegistered (trace (fst (main w))) = true /\
   auth_handler_isRegistered w = false) /\
  (length (filter isPamAuthInitialize (trace (fst (main w)))) <= 1)%nat.
Proof.
  intros Hoff.
  rewrite (existsb_as_filter isPamAuthInitialize).
  rewrite (existsb_as_filter isAuthIsRegistered).
  destruct (main_phase_calls w HandlersRegistered)
    as [Hnone | [p [p2 [r2 [t [Hreach [Hph [Ht Hcalls]]]]]]]].
  - rewrite (Hnone _ isPam_callOf), (Hnone _ isAuthIsRegistered_callOf).
    cbn. split; [| lia].
    split; [intros H; discriminate H | intros [H _]; discriminate H].
  - rewrite (Hcalls _ isPam_callOf), (Hcalls _ isAuthIsRegistered_callOf).
    rewrite <- !existsb_as_filter.
    destruct (handlers_paragraph_pam w p Hoff)
      as [t' [p2' [r2' [Hph' [Ht' [Hiff Hle]]]]]].
    rewrite Hph in Hph'. inversion Hph'. subst p2' r2'.
    rewrite Ht in Ht'. apply app_inv_head in Ht'. subst t'.
    split; assumption.
Qed.

Lemma isAuthCall_callOf (e : Event) :
  isAuthIsRegistered e || isPamAuthInitialize e = true ->
  callOf HandlersRegistered e = true.
Proof. destruct e; cbn; intros H; first [reflexivity | discriminate H]. Qed.

(** The calls about authentication that the paragraph makes once the
    server and the addins are initialised: it asks whether a provider is
    registered, and initialises PAM when none is. *)
Lemma handlers_paragraph_auth (w : World) (p : Process) :
  serverOffline (options w) = false ->
  isError (server_init_ret w) = false ->
  isError (addins_initialize_ret w) = false ->
  filter (fun e => isAuthIsRegistered e || isPamAuthInitialize e)
         (trace (fst (phase w HandlersRegistered p))) =
  filter (fun e => isAuthIsRegistered e || isPamAuthInitialize e) (trace p) ++
  EvAuthIsRegistered
  :: (if auth_handler_isRegistered w then [] else [EvPamAuthInitialize]).
Proof.
  intros Hoff Hinit Haddins. destruct p as [t0 c0 m0 d0].
  unfold phase, httpServerInit, httpServerAddHandlers, uri_handlers.add,
    uri_handlers.addBlocking, uri_handlers.setBlockingDefault.
  rewrite Hoff. run. rewrite Hinit. run. rewrite Haddins. run.
  destruct (auth_handler_isRegistered w); run;
    [| destruct (isError (pam_auth_initialize_ret w)); run];
    cbn [fst trace]; rewrite !filter_app; cbn; rewrite ?app_nil_r;
    rewrite <- ?app_assoc; reflexivity.
Qed.

(** C6.  When the server is not offline, a run of [main] that gets past
    the initialisation of the server and of the addins asks once whether
    an authentication provider is registered, and initialises the fallback
    PAM authenticator, once and right after, exactly when none is.  With
    a provider registered no run ever initialises it, and no run does so
    twice. *)
Theorem C6_pam_fallback_iff_no_provider (w : World) :
  serverOffline (options w) = false ->
  (auth_handler_isRegistered w = true ->
   existsb isPamAuthInitialize (trace (fst (main w))) = false) /\
  (length (filter isPamAuthInitialize (trace (fst (main w)))) <= 1)%nat /\
  (forall p,
      reaches w HandlersRegistered p ->
      isError (server_init_ret w) = false ->
      isError (addins_initialize_ret w) = false ->
      filter (fun e => isAuthIsRegistered e || isPamAuthInitialize e)
             (trace (fst (main w))) =
      EvAuthIsRegistered
      :: (if auth_handler_isRegistered w then [] else [EvPamAuthInitialize]) /\
      (existsb isPamAuthInitialize (trace (fst (main w))) = true <->
       auth_handler_isRegistered w = false)).
Proof.
  intros Hoff. destruct (pam_only_after_asking w Hoff) as [Hiff Hle].
  split; [| split; [exact Hle |]].
  - intros Hreg.
    destruct (existsb isPamAuthInitialize (trace (fst (main w)))) eqn:E;
      [| reflexivity].
    destruct (proj1 Hiff eq_refl) as [_ Hno]. rewrite Hreg in Hno.
    discriminate Hno.
  - intros p Hr Hinit Haddins.
    assert (Hcalls :
      filter (fun e => isAuthIsRegistered e || isPamAuthInitialize e)
             (trace (fst (main w))) =
      EvAuthIsRegistered
      :: (if auth_handler_isRegistered w then [] else [EvPamAuthInitialize])).
    { destruct (main_phase_calls w HandlersRegistered)
        as [Hnone | [q [p2 [r2 [t [Hq [Hph [Ht Hcalls]]]]]]]].
      - exfalso.
        destruct (main_cases w HandlersRegistered)
          as [[q [code [Hstop _]]]
             | [q [p2 [r2 [t [Hq [Hearly [Hph [Ht [_ Hrest]]]]]]]]]].
        + unfold reaches in Hr. rewrite Hr in Hstop. discriminate Hstop.
        + unfold reaches in Hq, Hr. rewrite Hr in Hq. inversion Hq. subst q.
          pose proof (handlers_paragraph_auth w p Hoff Hinit Haddins) as Ha.
          rewrite Hph in Ha. cbn [fst] in Ha.
          pose proof (Hnone _ isAuthCall_callOf) as Hn.
          assert (Hsub : exists t'', trace (fst (main w)) = trace p2 ++ t'').
          { destruct r2 as [[] | h].
            - destruct Hrest as [_ [t' [Ht' _]]]. exists t'. exact Ht'.
            - rewrite Hrest. exists []. cbn. rewrite app_nil_r. reflexivity. }
          destruct Hsub as [t'' Hsub]. rewrite Hsub, filter_app, Ha in Hn.
          apply app_eq_nil in Hn. destruct Hn as [Hn _].
          apply app_eq_nil in Hn. destruct Hn as [_ Hn]. discriminate Hn.
      - rewrite (Hcalls _ isAuthCall_callOf).
        unfold reaches in Hq, Hr. rewrite Hr in Hq. inversion Hq. subst q.
        pose proof (handlers_paragraph_auth w p Hoff Hinit Haddins) as Ha.
        rewrite Hph in Ha. cbn [fst] in Ha.
        rewrite Ht, filter_app in Ha. apply app_inv_head in Ha. exact Ha. }
    split; [exact Hcalls |].
    assert (Hpam : forall t,
               existsb isPamAuthInitialize t =
               existsb isPamAuthInitialize
                 (filter (fun e => isAuthIsRegistered e
                                   || isPamAuthInitialize e) t)).
    { induction t as [| e t IH]; [reflexivity |].
      destruct e; cbn; first [exact IH | reflexivity]. }
    rewrite Hpam, Hcalls.
    destruct (auth_handler_isRegistered w); cbn; split; intros H;
      first [reflexivity | discriminate H].
Qed.

Lemma C6_pam_fallback_iff_no_provider_witness :
  filter (fun e => isAuthIsRegistered e || isPamAuthInitialize e)
         (trace (fst (main Sample.healthy))) =
  [EvAuthIsRegistered; EvPamAuthInitialize] /\
  filter (fun e => isAuthIsRegistered e || isPamAuthInitialize e)
         (trace (fst (main Sample.providerRegistered))) =
  [EvAuthIsRegistered].
Proof.
  split.
  - assert (Hr : exists p, reaches Sample.healthy HandlersRegistered p)
      by (eexists; vm_compute; reflexivity).
    destruct Hr as [p Hr].
    exact (proj1 (proj2 (proj2 (C6_pam_fallback_iff_no_provider
                                  Sample.healthy eq_refl))
                        p Hr eq_refl eq_refl)).
  - assert (Hr : exists p,
                 reaches Sample.providerRegistered HandlersRegistered p)
      by (eexists; vm_compute; reflexivity).
    destruct Hr as [p Hr].
    exact (proj1 (proj2 (proj2 (C6_pam_fallback_iff_no_provider
                                  Sample.providerRegistered eq_refl))
                        p Hr eq_refl eq_refl)).
Defined.

(* ================================================================== *)
(** * Bootstrap: AppArmor, the privilege drop and verify-installation *)

Lemma reaches_main (w : World) (ph : Phase) (p : Process) :
  reaches w ph p ->
  main w = finish (bind (phase w ph) (fun _ => runPhases w (after ph)) p).
Proof. intros H. rewrite (main_split w ph). rewrite H. reflexivity. Qed.

Lemma reaches_step (w : World) (ph ph' : Phase) (p p1 : Process) :
  before ph' = before ph ++ [ph] ->
  reaches w ph p -> phase w ph p = (p1, Next tt) -> reaches w ph' p1.
Proof.
  unfold reaches. intros Hb Hr Hp. rewrite Hb, runPhases_app, Hr.
  simpl. unfold bind. rewrite Hp. reflexivity.
Qed.

Lemma reaches_inv (w : World) (ph ph' : Phase) (p : Process) :
  before ph' = before ph ++ [ph] ->
  reaches w ph' p ->
  exists p0, reaches w ph p0 /\ phase w ph p0 = (p, Next tt).
Proof.
  unfold reaches. intros Hb. rewrite Hb, runPhases_app.
  destruct (runPhases w (before ph) (startProcess w)) as [p0 [[] | h]] eqn:E0;
    [| intros H; discriminate H].
  simpl. unfold bind, ret.
  destruct (phase w ph p0) as [p1 [[] | h]] eqn:E1;
    intros H; inversion H; subst.
  exists p0. split; [reflexivity | exact E1].
Qed.

(** The signal loop and the rest of the last paragraph leave the
    credentials of the process alone. *)
Lemma loopBody_keeps_cred (pf : Platform) (wk : Wakeup) :
  keeps sameCred (fun _ => True) (loopBody pf wk).
Proof. unfold loopBody, kill, deliver, sameCred. returns_tac. Qed.

Lemma waitLoop_keeps_cred (pf : Platform) (wks : list Wakeup) :
  keeps sameCred (fun _ => True) (waitLoop pf wks).
Proof.
  induction wks as [| wk wks IH]; simpl.
  - apply keeps_halt; [intros p; reflexivity | exact Logic.I].
  - apply keeps_bind.
    + unfold sameCred. intros; etransitivity; eassumption.
    + apply loopBody_keeps_cred.
    + intros [error |]; [apply keeps_ret; intros p; reflexivity | exact IH].
Qed.

Lemma running_keeps_cred (w : World) :
  keeps sameCred (fun _ => True) (phase w Running).
Proof.
  unfold phase, waitForSignals, sameCred.
  repeat first [apply waitLoop_keeps_cred | progress returns_tac].
Qed.

Lemma drop_paragraph_fails (w : World) (p : Process) :
  empty (serverUser (options w)) = false ->
  isError (temporarilyDropPriv_ret w) = true ->
  phase w PrivilegeDropped p =
  (mkProcess (trace p ++ [EvTemporarilyDropPriv (serverUser (options w));
                          EvLogError (temporarilyDropPriv_ret w)])
             (cred p) (sigmask p) (disposition p),
   Stop (Exited EXIT_FAILURE)).
Proof.
  intros Hu He. destruct p as [t0 c0 m0 d0].
  unfold phase, temporarilyDropPriv. rewrite Hu. run.
  rewrite He. run. rewrite He. run. rewrite <- app_assoc. reflexivity.
Qed.

Lemma drop_paragraph_succeeds (w : World) (p : Process) :
  empty (serverUser (options w)) = false ->
  isError (temporarilyDropPriv_ret w) = false ->
  phase w PrivilegeDropped p =
  (mkProcess (trace p ++ [EvTemporarilyDropPriv (serverUser (options w))])
             (mkCred (runAsUid w) (runAsUid w) (runAsUid w))
             (sigmask p) (disposition p),
   Next tt).
Proof.
  intros Hu He. destruct p as [t0 c0 m0 d0].
  unfold phase, temporarilyDropPriv. rewrite Hu. run.
  rewrite He. run. rewrite He. reflexivity.
Qed.

(** A failed privilege drop ends the run: the error is logged and [main]
    returns EXIT_FAILURE with nothing else done. *)
Lemma drop_failure_fatal (w : World) (p : Process) :
  reaches w PrivilegeDropped p ->
  empty (serverUser (options w)) = false ->
  isError (temporarilyDropPriv_ret w) = true ->
  main w =
  (mkProcess (trace p ++ [EvTemporarilyDropPriv (serverUser (options w));
                          EvLogError (temporarilyDropPriv_ret w)])
             (cred p) (sigmask p) (disposition p),
   Exited EXIT_FAILURE).
Proof.
  intros Hr Hu He. rewrite (reaches_main w PrivilegeDropped p Hr).
  unfold bind. rewrite (drop_paragraph_fails w p Hu He). reflexivity.
Qed.

(** The AppArmor paragraph always falls through. *)
Lemma apparmor_paragraph (w : World) (p : Process) :
  phase w AppArmorEnforced p =
  (mkProcess
     (trace p ++
      if serverAppArmorEnabled (options w)
      then EvEnforceRestricted
           :: logIf (isError (enforceRestricted_ret w)) (enforceRestricted_ret w)
      else [])
     (cred p) (sigmask p) (disposition p),
   Next tt).
Proof.
  destruct p as [t0 c0 m0 d0]. unfold phase, logIf.
  destruct (serverAppArmorEnabled (options w)); run.
  - destruct (isError (enforceRestricted_ret w)); run.
    + rewrite <- app_assoc. reflexivity.
    + reflexivity.
  - rewrite app_nil_r. reflexivity.
Qed.

(** C7.  When AppArmor cannot be enforced, the error is logged and the
    run goes on to the paragraph that drops the privilege; when the
    privilege drop fails, the error is logged and [main] returns
    EXIT_FAILURE at once. *)
Theorem C7_apparmor_failure_logged_drop_failure_fatal (w : World) :
  (forall p,
      reaches w AppArmorEnforced p ->
      serverAppArmorEnabled (options w) = true ->
      isError (enforceRestricted_ret w) = true ->
      exists p1,
        phase w AppArmorEnforced p = (p1, Next tt) /\
        trace p1 =
          trace p ++ [EvEnforceRestricted; EvLogError (enforceRestricted_ret w)] /\
        reaches w PrivilegeDropped p1) /\
  (forall p,
      reaches w PrivilegeDropped p ->
      empty (serverUser (options w)) = false ->
      isError (temporarilyDropPriv_ret w) = true ->
      snd (main w) = Exited EXIT_FAILURE /\
      trace (fst (main w)) =
        trace p ++ [EvTemporarilyDropPriv (serverUser (options w));
                    EvLogError (temporarilyDropPriv_ret w)] /\
      cred (fst (main w)) = cred p).
Proof.
  split.
  - intros p Hr Ha He.
    pose proof (apparmor_paragraph w p) as Hs. rewrite Ha, He in Hs.
    eexists. split; [exact Hs |]. split; [reflexivity |].
    apply (reaches_step w AppArmorEnforced PrivilegeDropped p);
      [reflexivity | exact Hr | exact Hs].
  - intros p Hr Hu He. rewrite (drop_failure_fatal w p Hr Hu He).
    repeat split.
Qed.

Lemma C7_apparmor_failure_logged_drop_failure_fatal_witness :
  snd (main Sample.dropFails) = Exited EXIT_FAILURE /\
  skipn 38 (trace (fst (main Sample.dropFails))) =
    [EvEnforceRestricted; EvLogError (mkError 13);
     EvTemporarilyDropPriv "rstudio-server"; EvLogError (mkError 1)].
Proof.
  assert (Hr : reaches Sample.dropFails AppArmorEnforced
                       (fst (runPhases Sample.dropFails (before AppArmorEnforced)
                                       (startProcess Sample.dropFails))))
    by (vm_compute; reflexivity).
  destruct (C7_apparmor_failure_logged_drop_failure_fatal Sample.dropFails)
    as [Harmor Hdrop].
  destruct (Harmor _ Hr eq_refl eq_refl) as [p1 [Hp [Ht Hreach]]].
  destruct (Hdrop p1 Hreach eq_refl eq_refl) as [Hexit [Htrace _]].
  split; [exact Hexit |].
  rewrite Htrace, Ht. vm_compute. reflexivity.
Defined.

(** The last paragraph in verify-installation mode: the self-check, then
    [return]. *)
Lemma verify_paragraph (w : World) (p : Process) :
  verifyInstallation (options w) = true ->
  phase w Running p =
  (mkProcess
     (trace p ++
      EvRunVerifyInstallationSession
      :: logIf (isError (runVerifyInstallationSession_ret w))
               (runVerifyInstallationSession_ret w))
     (cred p) (sigmask p) (disposition p),
   Stop (Exited (if isError (runVerifyInstallationSession_ret w)
                 then EXIT_FAILURE else EXIT_SUCCESS))).
Proof.
  intros Hv. destruct p as [t0 c0 m0 d0]. unfold phase, logIf.
  rewrite Hv. run.
  destruct (isError (runVerifyInstallationSession_ret w)); run.
  - rewrite <- app_assoc. reflexivity.
  - reflexivity.
Qed.

Lemma isServerRun_callOf (e : Event) :
  isServerRun e = true -> callOf Running e = true.
Proof. destruct e; cbn; intros H; first [reflexivity | discriminate H]. Qed.

(** When the last paragraph is reached with a run-as user configured, the
    privilege drop was the last thing done, and it succeeded. *)
Lemma running_after_drop (w : World) (p : Process) :
  reaches w Running p ->
  empty (serverUser (options w)) = false ->
  isError (temporarilyDropPriv_ret w) = false /\
  exists t, trace p = t ++ [EvTemporarilyDropPriv (serverUser (options w))].
Proof.
  intros Hr Hu.
  destruct (reaches_inv w PrivilegeDropped Running p eq_refl Hr)
    as [p0 [_ Hp]].
  destruct (isError (temporarilyDropPriv_ret w)) eqn:He.
  - rewrite (drop_paragraph_fails w p0 Hu He) in Hp. discriminate Hp.
  - rewrite (drop_paragraph_succeeds w p0 Hu He) in Hp. inversion Hp.
    split; [reflexivity |]. exists (trace p0). reflexivity.
Qed.

(** C8.  In verify-installation mode the server is never started.  Once
    the paragraphs up to the privilege drop are through (with a run-as user
    configured, the successful drop is the last call before), the run makes
    the self-check its next and last call and returns its result:
    EXIT_SUCCESS when the check succeeds, EXIT_FAILURE (after logging the
    error) when it fails. *)
Theorem C8_verify_installation_exits (w : World) :
  verifyInstallation (options w) = true ->
  existsb isServerRun (trace (fst (main w))) = false /\
  (forall p,
      reaches w Running p ->
      main w =
        (mkProcess
           (trace p ++
            EvRunVerifyInstallationSession
            :: logIf (isError (runVerifyInstallationSession_ret w))
                     (runVerifyInstallationSession_ret w))
           (cred p) (sigmask p) (disposition p),
         Exited (if isError (runVerifyInstallationSession_ret w)
                 then EXIT_FAILURE else EXIT_SUCCESS)) /\
      (empty (serverUser (options w)) = false ->
       isError (temporarilyDropPriv_ret w) = false /\
       exists t,
         trace p = t ++ [EvTemporarilyDropPriv (serverUser (options w))])).
Proof.
  intros Hv. split.
  - rewrite existsb_as_filter.
    destruct (main_phase_calls w Running)
      as [Hnone | [p [p2 [r2 [t [Hreach [Hph [Ht Hcalls]]]]]]]].
    + rewrite (Hnone _ isServerRun_callOf). reflexivity.
    + rewrite (Hcalls _ isServerRun_callOf).
      rewrite (verify_paragraph w p Hv) in Hph. inversion Hph as [[Hp2 Hr2]].
      rewrite <- Hp2 in Ht. cbn in Ht. apply app_inv_head in Ht. subst t.
      unfold logIf.
      destruct (isError (runVerifyInstallationSession_ret w)); reflexivity.
  - intros p Hr. rewrite (reaches_main w Running p Hr).
    unfold bind. rewrite (verify_paragraph w p Hv).
    split; [reflexivity |].
    intros Hu. exact (running_after_drop w p Hr Hu).
Qed.

Lemma C8_verify_installation_exits_witness :
  (snd (main Sample.verifying) = Exited EXIT_SUCCESS /\
   skipn 39 (trace (fst (main Sample.verifying))) =
     [EvTemporarilyDropPriv "rstudio-server";
      EvRunVerifyInstallationSession]) /\
  (snd (main Scenario.verifyFails) = Exited EXIT_FAILURE /\
   skipn 39 (trace (fst (main Scenario.verifyFails))) =
     [EvTemporarilyDropPriv "rstudio-server";
      EvRunVerifyInstallationSession; EvLogError (mkError 5)]).
Proof.
  split.
  - assert (Hr : reaches Sample.verifying Running
                         (fst (runPhases Sample.verifying (before Running)
                                         (startProcess Sample.verifying))))
      by (vm_compute; reflexivity).
    destruct (proj2 (C8_verify_installation_exits Sample.verifying eq_refl)
                    _ Hr) as [Hm _].
    rewrite Hm. split; vm_compute; reflexivity.
  - assert (Hr : reaches Scenario.verifyFails Running
                         (fst (runPhases Scenario.verifyFails (before Running)
                                         (startProcess Scenario.verifyFails))))
      by (vm_compute; reflexivity).
    destruct (proj2 (C8_verify_installation_exits Scenario.verifyFails eq_refl)
                    _ Hr) as [Hm _].
    rewrite Hm. split; vm_compute; reflexivity.
Defined.

(* ================================================================== *)
(** * Bootstrap: how much privilege is given up *)

(** A process all of whose user ids are one unprivileged user stays that
    user whatever effective user it asks for. *)
Lemma seteuid_unprivileged (uid newuid : Z) (c : Credentials) :
  uid <> 0 ->
  seteuid newuid (mkCred uid uid uid) = Some c -> c = mkCred uid uid uid.
Proof.
  intros Hn. unfold seteuid. cbn.
  apply Z.eqb_neq in Hn. rewrite Hn. cbn.
  destruct (newuid =? uid) eqn:E; cbn; intros H; [| discriminate H].
  apply Z.eqb_eq in E. subst newuid. inversion H. reflexivity.
Qed.

(** C1.  With an unprivileged run-as user configured, the paragraph that
    gives up root privilege either fails, and then the error is logged
    and [main] returns EXIT_FAILURE at once, with the credentials
    untouched; or succeeds, and then the run goes on with the real, the
    effective and the saved user all being the run-as user, to the end of
    [main]: the process is not privileged, cannot make itself privileged
    again, and whatever effective user it asks for, it stays the run-as
    user. *)
Theorem C1_privilege_drop_is_permanent (w : World) (p : Process) :
  reaches w PrivilegeDropped p ->
  empty (serverUser (options w)) = false ->
  runAsUid w <> 0 ->
  (isError (temporarilyDropPriv_ret w) = true ->
   snd (main w) = Exited EXIT_FAILURE /\
   trace (fst (main w)) =
     trace p ++ [EvTemporarilyDropPriv (serverUser (options w));
                 EvLogError (temporarilyDropPriv_ret w)] /\
   cred (fst (main w)) = cred p) /\
  (isError (temporarilyDropPriv_ret w) = false ->
   (exists p1, phase w PrivilegeDropped p = (p1, Next tt) /\
               reaches w Running p1 /\
               cred p1 = mkCred (runAsUid w) (runAsUid w) (runAsUid w)) /\
   cred (fst (main w)) = mkCred (runAsUid w) (runAsUid w) (runAsUid w) /\
   privileged (cred (fst (main w))) = false /\
   canRegainPrivilege (cred (fst (main w))) = false /\
   (forall uid c, seteuid uid (cred (fst (main w))) = Some c ->
                  c = cred (fst (main w)) /\ privileged c = false)).
Proof.
  intros Hr Hu Hn. split.
  - intros He. rewrite (drop_failure_fatal w p Hr Hu He). repeat split.
  - intros He.
    pose proof (drop_paragraph_succeeds w p Hu He) as Hdrop.
    assert (Hc : cred (fst (main w)) =
                 mkCred (runAsUid w) (runAsUid w) (runAsUid w)).
    { rewrite (reaches_main w PrivilegeDropped p Hr).
      unfold bind. rewrite Hdrop.
      change (runPhases w (after PrivilegeDropped))
        with (bind (phase w Running) (fun _ => ret tt)).
      unfold bind, ret.
      match goal with
      | |- context [phase w Running ?q] =>
          destruct (phase w Running q) as [p3 r3] eqn:E3;
          destruct (running_keeps_cred w _ _ _ E3) as [Hk _]
      end.
      unfold sameCred in Hk. cbn in Hk.
      destruct r3 as [[] | h]; cbn; exact Hk. }
    assert (Hp : privileged (mkCred (runAsUid w) (runAsUid w) (runAsUid w))
                 = false)
      by (unfold privileged; cbn; apply Z.eqb_neq; exact Hn).
    split.
    { eexists. split; [exact Hdrop |]. split; [| reflexivity].
      apply (reaches_step w PrivilegeDropped Running p);
        [reflexivity | exact Hr | exact Hdrop]. }
    rewrite Hc. split; [reflexivity |]. split; [exact Hp |]. split.
    + unfold canRegainPrivilege.
      destruct (seteuid 0 _) as [c |] eqn:E; [| reflexivity].
      rewrite (seteuid_unprivileged _ _ _ Hn E). exact Hp.
    + intros uid c E. rewrite (seteuid_unprivileged _ _ _ Hn E).
      split; [reflexivity | exact Hp].
Qed.

Lemma C1_privilege_drop_is_permanent_witness :
  cred (fst (main Sample.healthy)) = mkCred 999 999 999 /\
  privileged (cred (fst (main Sample.healthy))) = false /\
  canRegainPrivilege (cred (fst (main Sample.healthy))) = false.
Proof.
  assert (Hr : reaches Sample.healthy PrivilegeDropped
                       (fst (runPhases Sample.healthy (before PrivilegeDropped)
                                       (startProcess Sample.healthy))))
    by (vm_compute; reflexivity).
  destruct (C1_privilege_drop_is_permanent Sample.healthy _ Hr eq_refl
              ltac:(discriminate))
    as [_ Hok].
  destruct (Hok eq_refl) as [_ [Hc [Hp [Hregain _]]]].
  repeat split; assumption.
Defined.

(* ================================================================== *)
(** * Further properties: the filters and the route table *)

(** X1.  [mainPageFilter] is a short-circuit conjunction: when the browser
    filter rejects, the authentication filter is not run at all, whatever
    it is, and the response is what the browser filter left; the page is
    let through exactly when both filters accept, the second one seeing
    the response the first one left. *)
Theorem mainPageFilter_short_circuit
        (Request Response : Type)
        (supportedBrowserFilter auth_mainPageFilter :
           UriFilterFunction Request Response)
        (request : Request) (pResponse : Response) :
  (fst (supportedBrowserFilter request pResponse) = false ->
   forall anyFilter : UriFilterFunction Request Response,
     mainPageFilter supportedBrowserFilter anyFilter request pResponse =
     (false, snd (supportedBrowserFilter request pResponse))) /\
  (fst (mainPageFilter supportedBrowserFilter auth_mainPageFilter
                       request pResponse) = true <->
   fst (supportedBrowserFilter request pResponse) = true /\
   fst (auth_mainPageFilter request
          (snd (supportedBrowserFilter request pResponse))) = true).
Proof.
  unfold mainPageFilter.
  destruct (supportedBrowserFilter request pResponse) as [ok r1]. cbn.
  split.
  - intros ->. reflexivity.
  - destruct ok; cbn.
    + split; [intros H; split; [reflexivity | exact H] | intros [_ H]; exact H].
    + split; [intros H; discriminate H | intros [H _]; discriminate H].
Qed.

Lemma distinct_NoDup (l : list string) : distinct l = true -> NoDup l.
Proof.
  induction l as [| s l IH]; cbn; intros H; [constructor |].
  apply andb_true_iff in H. destruct H as [Hs Hl].
  constructor; [| exact (IH Hl)].
  intros Hin. apply negb_true_iff in Hs.
  assert (He : existsb (String.eqb s) l = true).
  { apply existsb_exists. exists s. split; [exact Hin | apply String.eqb_refl]. }
  rewrite He in Hs. discriminate Hs.
Qed.

(** What [httpServerAddHandlers] adds to the trace. *)
Lemma httpServerAddHandlers_prefixes (w : World) (p : Process) :
  exists t,
    httpServerAddHandlers w p =
    (mkProcess (trace p ++ t) (cred p) (sigmask p) (disposition p), Next tt) /\
    prefixes t =
      firstn 20 spelledOutPrefixes ++
      kBrowserUnsupported (platform w) :: skipn 20 spelledOutPrefixes /\
    filter isSetDefault t =
      [EvSetBlockingDefaultHandler
         (Route.blockingFileHandler (wwwLocalPath (options w)))] /\
    exists t0, t = t0 ++ [EvSetBlockingDefaultHandler
                            (Route.blockingFileHandler (wwwLocalPath (options w)))].
Proof.
  destruct p as [t0 c0 m0 d0].
  unfold httpServerAddHandlers, uri_handlers.add, uri_handlers.addBlocking,
    uri_handlers.setBlockingDefault.
  run. rewrite <- !app_assoc.
  eexists. split; [reflexivity |].
  split; [reflexivity |]. split; [reflexivity |].
  eexists. cbn [app].
  repeat (rewrite (app_comm_cons _ _ _)).
  match goal with
  | |- ?l = _ => change l with (removelast l ++ [last l EvSigwait])
  end.
  reflexivity.
Qed.

(** X2.  [httpServerAddHandlers] registers twenty-two prefixes and then,
    as its last call, the one blocking default handler.  Provided
    [kBrowserUnsupported] is none of the prefixes the function spells out,
    no prefix is registered twice. *)
Theorem route_table_prefixes_distinct (w : World) (p : Process) :
  ~ In (kBrowserUnsupported (platform w)) spelledOutPrefixes ->
  exists t p',
    httpServerAddHandlers w p = (p', Next tt) /\
    trace p' = trace p ++ t /\
    length (prefixes t) = 22%nat /\
    NoDup (prefixes t) /\
    length (filter isSetDefault t) = 1%nat /\
    exists t0 h, t = t0 ++ [EvSetBlockingDefaultHandler h].
Proof.
  intros Hk.
  destruct (httpServerAddHandlers_prefixes w p) as [t [E [Hp [Hd [t0 Ht]]]]].
  exists t. eexists. split; [exact E |]. split; [reflexivity |].
  rewrite Hp, Hd. split; [reflexivity |]. split.
  - apply (Permutation_NoDup
             (Permutation_middle (firstn 20 spelledOutPrefixes)
                                 (skipn 20 spelledOutPrefixes)
                                 (kBrowserUnsupported (platform w)))).
    rewrite firstn_skipn. constructor; [exact Hk |].
    apply distinct_NoDup. vm_compute. reflexivity.
  - split; [reflexivity |]. exists t0. eexists. exact Ht.
Qed.

Lemma route_table_prefixes_distinct_witness :
  exists t p',
    httpServerAddHandlers Sample.healthy (startProcess Sample.healthy)
    = (p', Next tt) /\
    trace p' = [] ++ t /\
    length (prefixes t) = 22%nat /\
    NoDup (prefixes t) /\
    length (filter isSetDefault t) = 1%nat /\
    exists t0 h, t = t0 ++ [EvSetBlockingDefaultHandler h].
Proof.
  apply (route_table_prefixes_distinct Sample.healthy
           (startProcess Sample.healthy)).
  vm_compute. intros H.
  repeat (destruct H as [H | H]; [discriminate H |]). exact H.
Defined.

(* ================================================================== *)
(** * Further properties: how a run ends *)

Lemma ends_ret {A : Type} (Q : Process -> Halt -> Prop) (a : A) :
  ends Q (ret a).
Proof. intros p p' h H. discriminate H. Qed.

Lemma ends_emit (Q : Process -> Halt -> Prop) (e : Event) : ends Q (emit e).
Proof. intros p p' h H. discriminate H. Qed.

Lemma ends_halt {A : Type} (Q : Process -> Halt -> Prop) (h : Halt) :
  (forall p, Q p h) -> ends Q (@halt A h).
Proof. intros HQ p p' h' H. inversion H. subst. apply HQ. Qed.

Lemma ends_bind {A B : Type} (Q : Process -> Halt -> Prop) (c : M A)
      (k : A -> M B) :
  ends Q c -> (forall a, ends Q (k a)) -> ends Q (bind c k).
Proof.
  intros Hc Hk p p' h H. unfold bind in H.
  destruct (c p) as [p1 [a | h1]] eqn:E.
  - exact (Hk a _ _ _ H).
  - inversion H. subst. exact (Hc _ _ _ E).
Qed.

Lemma ends_bind_yields {A B : Type} (Q : Process -> Halt -> Prop)
      (N : A -> Prop) (c : M A) (k : A -> M B) :
  ends Q c -> yields N c -> (forall a, N a -> ends Q (k a)) ->
  ends Q (bind c k).
Proof.
  intros Hc Hy Hk p p' h H. unfold bind in H.
  destruct (c p) as [p1 [a | h1]] eqn:E.
  - exact (Hk a (Hy _ _ _ E) _ _ _ H).
  - inversion H. subst. exact (Hc _ _ _ E).
Qed.

Lemma ends_bind_gives {A B : Type} (Q : Process -> Halt -> Prop) (a : A)
      (c : M A) (k : A -> M B) :
  gives a c -> ends Q (k a) -> ends Q (bind c k).
Proof.
  intros Hg Hk p p' h H. unfold bind in H. specialize (Hg p).
  destruct (c p) as [p1 r]. cbn in Hg. subst r. exact (Hk _ _ _ H).
Qed.

Lemma ends_weaken {A : Type} (Q Q' : Process -> Halt -> Prop) (c : M A) :
  (forall p h, Q p h -> Q' p h) -> ends Q c -> ends Q' c.
Proof. intros HQ Hc p p' h H. apply HQ. exact (Hc _ _ _ H). Qed.

(** [check error ;; k] either logs the error and returns EXIT_FAILURE or
    goes on with [k]. *)
Lemma ends_bind_check {B : Type} (Q : Process -> Halt -> Prop) (error : Error)
      (k : unit -> M B) :
  (isError error = true ->
   forall p, Q (mkProcess (trace p ++ [EvLogError error]) (cred p) (sigmask p)
                          (disposition p)) (Exited EXIT_FAILURE)) ->
  (isError error = false -> ends Q (k tt)) ->
  ends Q (bind (check error) k).
Proof.
  intros Hfail Hk p p' h H. unfold check, exitFailure in H.
  destruct (isError error) eqn:He.
  - unfold bind, emit, halt in H. cbn in H. inversion H. subst.
    apply Hfail. reflexivity.
  - unfold bind, ret in H. exact (Hk eq_refl _ _ _ H).
Qed.

Lemma yields_ret {A : Type} (N : A -> Prop) (a : A) : N a -> yields N (ret a).
Proof. intros Ha p p' a' H. inversion H. subst. exact Ha. Qed.

Lemma yields_halt {A : Type} (N : A -> Prop) (h : Halt) :
  yields N (@halt A h).
Proof. intros p p' a H. discriminate H. Qed.

Lemma yields_bind {A B : Type} (N : B -> Prop) (c : M A) (k : A -> M B) :
  (forall a, yields N (k a)) -> yields N (bind c k).
Proof.
  intros Hk p p' b H. unfold bind in H.
  destruct (c p) as [p1 [a | h1]]; [exact (Hk a _ _ _ H) | discriminate H].
Qed.

Lemma yields_bind_gives {A B : Type} (N : B -> Prop) (a : A) (c : M A)
      (k : A -> M B) :
  gives a c -> yields N (k a) -> yields N (bind c k).
Proof.
  intros Hg Hk p p' b H. unfold bind in H. specialize (Hg p).
  destruct (c p) as [p1 r]. cbn in Hg. subst r. exact (Hk _ _ _ H).
Qed.

Lemma yields_bind_never {A B : Type} (N : B -> Prop) (c : M A)
      (k : A -> M B) :
  yields (fun _ => False) c -> yields N (bind c k).
Proof.
  intros Hc p p' b H. unfold bind in H.
  destruct (c p) as [p1 [a | h1]] eqn:E; [| discriminate H].
  destruct (Hc _ _ _ E).
Qed.

Lemma gives_call {A : Type} (e : Event) (a : A) : gives a (call e a).
Proof. intros p. reflexivity. Qed.

Lemma gives_sigaction (sig : Z) (d : Disposition) (answer : Z) :
  gives answer (sigaction sig d answer).
Proof.
  intros p. unfold sigaction, bind, emit. cbn.
  destruct (answer =? 0); reflexivity.
Qed.

Lemma gives_pthread_sigmask_block (set : list Z) (answer : Z) :
  gives answer (pthread_sigmask_block set answer).
Proof.
  intros p. unfold pthread_sigmask_block, bind, emit. cbn.
  destruct (answer =? 0); reflexivity.
Qed.

Lemma lastReport_snoc (t : list Event) (e : Event) :
  lastReport (t ++ [e]) = isReport e.
Proof. unfold lastReport. rewrite rev_unit. reflexivity. Qed.

Lemma mainEnds_fail (w : World) (e : Event) (p : Process) :
  isReport e = true ->
  mainEnds w (mkProcess (trace p ++ [e]) (cred p) (sigmask p) (disposition p))
           (Exited EXIT_FAILURE).
Proof.
  intros He. right. left. split; [reflexivity |]. left.
  cbn. rewrite lastReport_snoc. exact He.
Qed.

(** An exception ends the run in the [catch] clause of [main], with
    EXIT_FAILURE. *)
Lemma ends_throw (w : World) : ends (mainEnds w) (@throw unit).
Proof.
  intros p p' h H. unfold throw, bind, emit, halt in H. inversion H. subst.
  right. left. split; [reflexivity |]. right.
  cbn. unfold lastCaught. rewrite rev_unit. reflexivity.
Qed.

(** [emit e ;; halt (Exited EXIT_FAILURE)] with [e] a report. *)
Lemma ends_report (w : World) (e : Event) :
  isReport e = true ->
  ends (mainEnds w) (bind (emit e) (fun _ => @halt unit (Exited EXIT_FAILURE))).
Proof.
  intros He p p' h H. unfold bind, emit, halt in H. inversion H. subst.
  apply mainEnds_fail. exact He.
Qed.

Lemma ends_check (Q : Process -> Halt -> Prop) (error : Error) :
  (isError error = true ->
   forall p, Q (mkProcess (trace p ++ [EvLogError error]) (cred p) (sigmask p)
                          (disposition p)) (Exited EXIT_FAILURE)) ->
  ends Q (check error).
Proof.
  intros Hfail p p' h H. unfold check, exitFailure in H.
  destruct (isError error) eqn:He; [| discriminate H].
  unfold bind, emit, halt in H. cbn in H. inversion H. subst.
  apply Hfail. reflexivity.
Qed.

(** A state change never ends the run. *)
Ltac ends_state :=
  let H := fresh "H" in
  intros ? ? ? H;
  repeat match type of H with
         | context [if ?b then _ else _] => destruct b
         | context [match ?x with _ => _ end] => destruct x
         end;
  discriminate H.

Ltac ends_step :=
  match goal with
  | |- ends _ throw => apply ends_throw
  | |- ends _ (bind (call _ _) _) =>
      eapply ends_bind_gives; [apply gives_call |]
  | |- ends _ (bind (check _) _) =>
      apply ends_bind_check;
      [let He := fresh "He" in
       intros He ?; apply mainEnds_fail; exact He
      | intros _]
  | |- ends _ (check _) =>
      apply ends_check;
      let He := fresh "He" in intros He ?; apply mainEnds_fail; exact He
  | |- ends _ (bind (emit _) (fun _ => halt (Exited EXIT_FAILURE))) =>
      apply ends_report; reflexivity
  | |- ends _ (bind _ _) => apply ends_bind; [| intro]
  | |- ends _ (ret _) => apply ends_ret
  | |- ends _ (emit _) => apply ends_emit
  | |- ends _ (call _ _) => unfold call
  | |- ends _ (halt (Exited (exitCode _))) =>
      apply ends_halt; intro; left; split; [assumption | reflexivity]
  | |- ends _ (if ?b then _ else _) => destruct b eqn:?
  | |- ends _ (fun _ => _) => ends_state
  end.

Ltac ends_tac :=
  unfold httpServerInit, httpServerAddHandlers, uri_handlers.add,
    uri_handlers.addBlocking, uri_handlers.setBlockingDefault,
    temporarilyDropPriv, realUserIsRoot;
  unfold when, LOG_ERROR, LOG_WARNING_MESSAGE;
  repeat ends_step.

(** Before the server runs, a paragraph ends the run only by returning
    the exit code of the options or, an error reported, EXIT_FAILURE. *)
Lemma bootstrap_phase_ends (w : World) (ph : Phase) :
  ph <> Running -> ends (mainEnds w) (phase w ph).
Proof.
  intros Hph.
  destruct ph; try (exfalso; apply Hph; reflexivity); unfold phase; ends_tac.
Qed.

(** [kill] and the clearing of the mask end the run only by the death
    of the process. *)
Lemma kill_loopEnds (pf : Platform) (sig : Z) : ends loopEnds (kill pf sig).
Proof.
  intros p p' h H. unfold kill, deliver, bind, emit in H. cbn in H.
  repeat match type of H with
         | context [if ?b then _ else _] => destruct b
         | context [match ?x with _ => _ end] => destruct x
         end;
    inversion H; subst; exact Logic.I.
Qed.

Lemma unblockAll_loopEnds (pf : Platform) (pending : list Z) :
  ends loopEnds (unblockAll pf pending).
Proof.
  intros p p' h H. rewrite unblockAll_run in H.
  destruct (firstFatal pf p pending); inversion H; exact Logic.I.
Qed.

Lemma loopBody_ends (pf : Platform) (wk : Wakeup) :
  ends loopEnds (loopBody pf wk).
Proof.
  unfold loopBody.
  eapply ends_bind_gives; [apply gives_call |].
  destruct (negb (sigwait_result wk =? 0)); [apply ends_ret |].
  cbv zeta.
  destruct (sigwait_sig wk =? SIGCHLD pf);
    [apply ends_bind; [apply ends_emit | intro; apply ends_ret] |].
  destruct (isTerminationSignal pf (sigwait_sig wk)) eqn:Ht.
  - unfold clearSignalMask, sigaction, when, LOG_ERROR.
    repeat match goal with
           | |- ends _ (kill _ _) => apply kill_loopEnds
           | |- ends _ (unblockAll _ _) => apply unblockAll_loopEnds
           | |- ends _ (ret _) => apply ends_ret
           | |- ends _ (emit _) => apply ends_emit
           | |- ends _ (bind _ _) => apply ends_bind; [| intro]
           | |- ends _ (if ?b then _ else _) => destruct b
           | |- ends _ (fun _ => _) => ends_state
           end.
  - unfold LOG_WARNING_MESSAGE.
    apply ends_bind; [apply ends_emit | intro; apply ends_ret].
Qed.

Lemma loopBody_yields (pf : Platform) (wk : Wakeup) :
  yields (fun r => match r with
                   | Some error => isError error = true
                   | None => True
                   end)
         (loopBody pf wk).
Proof.
  unfold loopBody.
  eapply yields_bind_gives; [apply gives_call |].
  destruct (negb (sigwait_result wk =? 0)) eqn:E;
    [apply yields_ret; exact E |].
  cbv zeta.
  repeat first
    [ apply yields_ret; exact Logic.I
    | apply yields_bind; intro
    | match goal with
      | |- yields _ (if ?b then _ else _) => destruct b
      end ].
Qed.

Lemma waitLoop_ends (pf : Platform) (wks : list Wakeup) :
  ends loopEnds (waitLoop pf wks).
Proof.
  induction wks as [| wk wks IH]; simpl.
  - apply ends_halt. intros p. exact Logic.I.
  - apply ends_bind; [apply loopBody_ends |].
    intros [error |]; [apply ends_ret | exact IH].
Qed.

(** The loop hands back only errors that are set. *)
Lemma waitLoop_yields (pf : Platform) (wks : list Wakeup) :
  yields (fun error => isError error = true) (waitLoop pf wks).
Proof.
  induction wks as [| wk wks IH]; simpl.
  - apply yields_halt.
  - intros p p' e H. unfold bind in H.
    destruct (loopBody pf wk p) as [p1 [[error |] | h]] eqn:E.
    + inversion H. subst. exact (loopBody_yields pf wk _ _ _ E).
    + exact (IH _ _ _ H).
    + discriminate H.
Qed.

Lemma waitForSignals_ends (w : World) :
  ends loopEnds (waitForSignals w).
Proof.
  unfold waitForSignals. cbv zeta.
  eapply ends_bind_gives; [apply gives_sigaction |].
  destruct (negb (sigaction_SIGCHLD_ret w =? 0)); [apply ends_ret |].
  eapply ends_bind_gives; [apply gives_pthread_sigmask_block |].
  destruct (negb (pthread_sigmask_ret w =? 0)); [apply ends_ret |].
  apply waitLoop_ends.
Qed.

(** [waitForSignals] hands back an error that is set, or the error made
    of [errno] after [sigaction] failed. *)
Lemma waitForSignals_yields (w : World) :
  yields (fun error =>
            isError error = true \/
            (sigaction_SIGCHLD_ret w <> 0 /\
             error = systemError (sigaction_SIGCHLD_errno w)))
         (waitForSignals w).
Proof.
  unfold waitForSignals. cbv zeta.
  eapply yields_bind_gives; [apply gives_sigaction |].
  destruct (negb (sigaction_SIGCHLD_ret w =? 0)) eqn:Ea.
  { apply yields_ret. right. split; [| reflexivity].
    apply negb_true_iff, Z.eqb_neq in Ea. exact Ea. }
  eapply yields_bind_gives; [apply gives_pthread_sigmask_block |].
  destruct (negb (pthread_sigmask_ret w =? 0)) eqn:Em.
  { apply yields_ret. left. exact Em. }
  intros p p' e H. left. exact (waitLoop_yields _ _ _ _ _ H).
Qed.

Lemma loopEnds_mainEnds (w : World) (p : Process) (h : Halt) :
  loopEnds p h -> mainEnds w p h.
Proof. destruct h; cbn; intros H; [destruct H | exact H | exact H]. Qed.

Lemma running_ends (w : World) : ends (mainEnds w) (phase w Running).
Proof.
  unfold phase. cbv zeta.
  destruct (verifyInstallation (options w)) eqn:Hv.
  - eapply ends_bind_gives; [apply gives_call |].
    apply ends_bind_check.
    + intros He p. apply mainEnds_fail. exact He.
    + intros He. apply ends_halt. intros p. right. right.
      split; [reflexivity |]. left. split; [exact Hv | exact He].
  - eapply ends_bind_gives; [apply gives_call |].
    apply ends_bind_check; [intros He p; apply mainEnds_fail; exact He |].
    intros _.
    eapply ends_bind_yields;
      [ apply (ends_weaken _ _ _ (loopEnds_mainEnds w)), waitForSignals_ends
      | apply waitForSignals_yields |].
    intros error HN.
    apply ends_bind_check; [intros He p; apply mainEnds_fail; exact He |].
    intros He. apply ends_halt. intros p. right. right.
    split; [reflexivity |]. right.
    destruct HN as [HN | [Hs ->]]; [rewrite HN in He; discriminate He |].
    split; [exact Hv |]. split; [exact Hs |].
    unfold isError, systemError in He. cbn in He.
    apply negb_false_iff, Z.eqb_eq in He. exact He.
Qed.

(** The last paragraph never falls through: every path ends in a
    [return], in the death of the process or in [sigwait]. *)
Lemma running_never_falls_through (w : World) :
  yields (fun _ => False) (phase w Running).
Proof.
  unfold phase. cbv zeta.
  destruct (verifyInstallation (options w));
    repeat first [apply yields_halt | apply yields_bind; intro].
Qed.

Lemma phase_ends (w : World) (ph : Phase) : ends (mainEnds w) (phase w ph).
Proof.
  destruct ph; try (apply bootstrap_phase_ends; discriminate).
  apply running_ends.
Qed.

Lemma runPhases_ends (w : World) (phs : list Phase) :
  ends (mainEnds w) (runPhases w phs).
Proof.
  induction phs as [| ph phs IH]; simpl.
  - apply ends_ret.
  - apply ends_bind; [apply phase_ends | intros _; exact IH].
Qed.

Lemma main_never_falls_through (w : World) :
  yields (fun _ => False) (runPhases w allPhases).
Proof.
  unfold allPhases. cbn [runPhases].
  do 10 (apply yields_bind; intros _).
  apply yields_bind_never, running_never_falls_through.
Qed.

(** Every run of [main] ends in one of the ways of [mainEnds]. *)
Lemma main_ends (w : World) : mainEnds w (fst (main w)) (snd (main w)).
Proof.
  unfold main.
  destruct (runPhases w allPhases (startProcess w)) as [p [[] | h]] eqn:E.
  - destruct (main_never_falls_through w _ _ _ E).
  - exact (runPhases_ends w allPhases _ _ _ E).
Qed.

(** X3.  No silent failure: when [main] returns EXIT_FAILURE, either the
    options asked to exit with that code, or the last thing [main] did
    was to report an error (a log line of an error that is set, or the
    report of the failed R detection), or [main] comes out of its [catch]
    clause, where CATCH_UNEXPECTED_EXCEPTION has dealt with an
    exception. *)
Theorem failure_exit_is_reported (w : World) :
  snd (main w) = Exited EXIT_FAILURE ->
  (exit (options_read_ret w) = true /\
   exitCode (options_read_ret w) = EXIT_FAILURE)
  \/ lastReport (trace (fst (main w))) = true
  \/ lastCaught (trace (fst (main w))) = true.
Proof.
  intros H. pose proof (main_ends w) as Hm. rewrite H in Hm. cbn in Hm.
  destruct Hm as [[He Hc] | [[_ Hl] | [Hc _]]].
  - left. split; [exact He | symmetry; exact Hc].
  - right. exact Hl.
  - discriminate Hc.
Qed.

Lemma failure_exit_is_reported_witness :
  lastReport (trace (fst (main Sample.cookieFails))) = true /\
  lastCaught (trace (fst (main Sample.cryptoFails))) = true.
Proof.
  split.
  - assert (H : snd (main Sample.cookieFails) = Exited EXIT_FAILURE)
      by (vm_compute; reflexivity).
    destruct (failure_exit_is_reported Sample.cookieFails H)
      as [[He _] | [Hl | Hl]].
    + discriminate He.
    + exact Hl.
    + vm_compute in Hl. discriminate Hl.
  - assert (H : snd (main Sample.cryptoFails) = Exited EXIT_FAILURE)
      by (vm_compute; reflexivity).
    destruct (failure_exit_is_reported Sample.cryptoFails H)
      as [[He _] | [Hl | Hl]].
    + discriminate He.
    + vm_compute in Hl. discriminate Hl.
    + exact Hl.
Defined.

(** X4.  [main] returns EXIT_SUCCESS only when the options asked to exit
    with that code, when the verify-installation check succeeded, or, the
    server started, when [sigaction] for SIGCHLD failed while [errno] was
    0; a server that got into its signal loop never exits with
    success. *)
Theorem success_exit_conditions (w : World) :
  snd (main w) = Exited EXIT_SUCCESS ->
  (exit (options_read_ret w) = true /\
   exitCode (options_read_ret w) = EXIT_SUCCESS)
  \/ (verifyInstallation (options w) = true /\
      isError (runVerifyInstallationSession_ret w) = false)
  \/ (verifyInstallation (options w) = false /\
      sigaction_SIGCHLD_ret w <> 0 /\ sigaction_SIGCHLD_errno w = 0).
Proof.
  intros H. pose proof (main_ends w) as Hm. rewrite H in Hm. cbn in Hm.
  destruct Hm as [[He Hc] | [[Hc _] | [_ Hs]]].
  - left. split; [exact He | symmetry; exact Hc].
  - discriminate Hc.
  - right. exact Hs.
Qed.

Lemma success_exit_conditions_witness :
  verifyInstallation (options Sample.verifying) = true /\
  isError (runVerifyInstallationSession_ret Sample.verifying) = false.
Proof.
  assert (H : snd (main Sample.verifying) = Exited EXIT_SUCCESS)
    by (vm_compute; reflexivity).
  destruct (success_exit_conditions Sample.verifying H)
    as [[He _] | [Hv | [Hv _]]].
  - discriminate He.
  - exact Hv.
  - discriminate Hv.
Defined.

(** X18.  When the secure-cookie module or the session proxy fails to
    initialise, the run ends by returning from [main] with no call of a
    later phase, so the HTTP server is never set up and no handler is
    registered; and when the run got as far as these modules, it logs
    the error and returns EXIT_FAILURE. *)
Theorem security_module_failure_is_fatal (w : World) :
  isError (secure_cookie_initialize_ret w)
  || isError (session_proxy_initialize_ret w) = true ->
  (exists code, snd (main w) = Exited code) /\
  forallb (notLater SecurityModulesInitialized) (trace (fst (main w))) = true /\
  existsb (callOf HandlersRegistered) (trace (fst (main w))) = false /\
  (forall p, reaches w SecurityModulesInitialized p ->
             snd (main w) = Exited EXIT_FAILURE /\
             exists t e, isError e = true /\
                         trace (fst (main w)) = t ++ [EvLogError e]).
Proof.
  intros Hfail.
  assert (Hmain :
    (exists code, snd (main w) = Exited code) /\
    forallb (notLater SecurityModulesInitialized) (trace (fst (main w))) = true /\
    (forall p, reaches w SecurityModulesInitialized p ->
               snd (main w) = Exited EXIT_FAILURE /\
               exists t e, isError e = true /\
                           trace (fst (main w)) = t ++ [EvLogError e])).
  { destruct (main_cases w SecurityModulesInitialized)
      as [[p [code [Hstop [Hm Hearly]]]]
         | [p [p2 [r2 [t [Hreach [Hearly [Hph [Ht [Hin Hrest]]]]]]]]]].
    - rewrite Hm. cbn. split; [exists code; reflexivity |]. split.
      + revert Hearly. apply forallb_impl, earlier_notLater.
      + intros q Hq. unfold reaches in Hq. rewrite Hq in Hstop.
        discriminate Hstop.
    - destruct (security_modules_fail w p Hfail)
        as [p2' [tl [e [Hph' [He Hlast]]]]].
      rewrite Hph in Hph'. inversion Hph'. subst p2' r2.
      rewrite Hrest. cbn. split; [exists EXIT_FAILURE; reflexivity |]. split.
      + rewrite Ht, forallb_app. apply andb_true_iff. split.
        * revert Hearly. apply forallb_impl, earlier_notLater.
        * revert Hin. apply forallb_impl, within_notLater.
      + intros q _. split; [reflexivity |]. exists tl, e. split; assumption. }
  destruct Hmain as [Hexit [Hnot Hreached]].
  split; [exact Hexit |]. split; [exact Hnot |]. split; [| exact Hreached].
  apply (notLater_no_call SecurityModulesInitialized); [cbn; lia | exact Hnot].
Qed.

Lemma security_module_failure_is_fatal_witness :
  snd (main Sample.cookieFails) = Exited EXIT_FAILURE /\
  (exists t e, isError e = true /\
               trace (fst (main Sample.cookieFails)) = t ++ [EvLogError e]) /\
  existsb (callOf HandlersRegistered) (trace (fst (main Sample.cookieFails)))
  = false.
Proof.
  destruct (security_module_failure_is_fatal Sample.cookieFails eq_refl)
    as [_ [_ [Hno Hreach]]].
  assert (Hr : exists p,
               reaches Sample.cookieFails SecurityModulesInitialized p)
    by (eexists; vm_compute; reflexivity).
  destruct Hr as [p Hr].
  destruct (Hreach p Hr) as [Hexit Hlog].
  split; [exact Hexit |]. split; [exact Hlog | exact Hno].
Defined.

(* ================================================================== *)
(** * Further properties: what the signal loop sends and counts *)

Lemma loopBody_kills (pf : Platform) (wk : Wakeup) :
  emits (killsTermination pf) (loopBody pf wk).
Proof.
  unfold loopBody.
  apply emits_bind_call; [reflexivity |].
  destruct (negb (sigwait_result wk =? 0)); [apply emits_ret |].
  cbv zeta.
  destruct (sigwait_sig wk =? SIGCHLD pf); [emits_tac |].
  destruct (isTerminationSignal pf (sigwait_sig wk)) eqn:Ht; [| emits_tac].
  unfold clearSignalMask, sigaction, kill, deliver, when, LOG_ERROR.
  repeat match goal with
         | |- emits _ (bind _ _) => apply emits_bind; [| intro]
         | |- emits _ (ret _) => apply emits_ret
         | |- emits _ (emit _) =>
             apply emits_emit; first [reflexivity | exact Ht]
         | |- emits _ (if ?b then _ else _) => destruct b
         | |- emits _ (unblockAll _ _) =>
             apply emits_silent, unblockAll_silent
         | |- emits _ (fun _ => _) => apply emits_silent; silence
         end.
Qed.

Lemma waitLoop_kills (pf : Platform) (wks : list Wakeup) :
  emits (killsTermination pf) (waitLoop pf wks).
Proof.
  induction wks as [| wk wks IH]; simpl.
  - apply emits_halt.
  - apply emits_bind; [apply loopBody_kills |].
    intros [error |]; [apply emits_ret | exact IH].
Qed.

Lemma phase_kills (w : World) (ph : Phase) :
  emits (killsTermination (platform w)) (phase w ph).
Proof.
  destruct ph; unfold phase, waitForSignals;
    repeat first [apply waitLoop_kills | progress emits_tac].
Qed.

Lemma runPhases_kills (w : World) (phs : list Phase) :
  emits (killsTermination (platform w)) (runPhases w phs).
Proof.
  induction phs as [| ph phs IH]; simpl.
  - apply emits_ret.
  - apply emits_bind; [apply phase_kills | intros _; exact IH].
Qed.

(** X6.  Whatever [sigwait] returns, and whatever the collaborators
    answer, the only signals rserver ever sends are SIGINT, SIGQUIT and
    SIGTERM: every [kill] in a run of [main] carries one of them. *)
Theorem only_termination_signals_sent (w : World) :
  forallb (killsTermination (platform w)) (trace (fst (main w))) = true.
Proof.
  unfold main.
  destruct (runPhases w allPhases (startProcess w)) as [p r] eqn:E.
  destruct (runPhases_kills w allPhases _ _ _ E) as [t [Et Ft]].
  cbn in Et. destruct r; cbn; rewrite Et; exact Ft.
Qed.

(** The turn of the loop for an unexpected signal. *)
Lemma loopBody_unexpected (pf : Platform) (wk : Wakeup) (p : Process) :
  sigwait_result wk = 0 ->
  (sigwait_sig wk =? SIGCHLD pf) = false ->
  isTerminationSignal pf (sigwait_sig wk) = false ->
  loopBody pf wk p =
  (mkProcess
     (trace p ++
      [EvSigwait;
       EvLogWarningMessage
         (String.append "Unexpected signal returned from sigwait: "
                        (numberToString pf (sigwait_sig wk)))])
     (cred p) (sigmask p) (disposition p), Next None).
Proof.
  intros Hres Hchld Hterm.
  unfold loopBody, call, LOG_WARNING_MESSAGE, bind, emit, ret. cbn.
  rewrite Hres. cbn. rewrite Hchld, Hterm. cbn.
  rewrite <- app_assoc. reflexivity.
Qed.

(** A turn of the loop for a signal that is no termination signal: one
    [sigwait], one more call, and back to the head of the loop with the
    process as it was. *)
Lemma loopBody_benign (pf : Platform) (wk : Wakeup) (p : Process) :
  benign pf wk = true ->
  exists e,
    isSigwait e = false /\
    loopBody pf wk p =
    (mkProcess (trace p ++ [EvSigwait; e]) (cred p) (sigmask p)
               (disposition p), Next None).
Proof.
  unfold benign. intros H. apply andb_true_iff in H. destruct H as [Hr Ht].
  apply Z.eqb_eq in Hr. apply negb_true_iff in Ht.
  destruct (sigwait_sig wk =? SIGCHLD pf) eqn:Hc.
  - apply Z.eqb_eq in Hc. exists EvNotifySIGCHLD.
    split; [reflexivity | apply loopBody_child_exit; assumption].
  - eexists. split; [| apply loopBody_unexpected; assumption]. reflexivity.
Qed.

(** X7.  Child-exit and unexpected signals never end the loop: after any
    number of them the process is blocked in [sigwait] again, with its
    signal mask, dispositions and credentials as they were, and it has
    called [sigwait] once per signal. *)
Theorem loop_survives_benign_signals
        (pf : Platform) (wks : list Wakeup) (p : Process) :
  forallb (benign pf) wks = true ->
  exists p',
    waitLoop pf wks p = (p', Stop BlockedInSigwait) /\
    sigmask p' = sigmask p /\
    disposition p' = disposition p /\
    cred p' = cred p /\
    length (filter isSigwait (trace p')) =
      (length (filter isSigwait (trace p)) + length wks)%nat.
Proof.
  revert p. induction wks as [| wk wks IH]; intros p H.
  - exists p. cbn. repeat split. lia.
  - cbn in H. apply andb_true_iff in H. destruct H as [Hwk Hwks].
    destruct (loopBody_benign pf wk p Hwk) as [e [He E]].
    destruct (IH (mkProcess (trace p ++ [EvSigwait; e]) (cred p) (sigmask p)
                            (disposition p)) Hwks)
      as [p' [Hrun [Hm [Hd [Hc Hn]]]]].
    exists p'. split.
    + simpl. unfold bind at 1. rewrite E. exact Hrun.
    + cbn in Hm, Hd, Hc, Hn. repeat split; try assumption.
      rewrite Hn, filter_app, length_app. cbn. rewrite He. cbn. lia.
Qed.

Lemma loop_survives_benign_signals_witness :
  exists p',
    waitLoop Linux.platform
             [Sample.wkSIGCHLD; mkWakeup 0 10 [] Success 0; Sample.wkSIGCHLD]
             Sample.blockedProcess = (p', Stop BlockedInSigwait) /\
    sigmask p' = [17; 2; 3; 15] /\
    disposition p' = disposition Sample.blockedProcess /\
    cred p' = mkCred 0 999 0 /\
    length (filter isSigwait (trace p')) = 3%nat.
Proof.
  exact (loop_survives_benign_signals Linux.platform
           [Sample.wkSIGCHLD; mkWakeup 0 10 [] Success 0; Sample.wkSIGCHLD]
           Sample.blockedProcess eq_refl).
Defined.

(** X8.  When [sigwait] fails, the loop ends at once: whatever the signal
    variable holds, nothing is notified, reset or sent, later signals are
    not waited for, and [waitForSignals] hands back the result of
    [sigwait] as an error that is set. *)
Theorem sigwait_failure_ends_loop
        (pf : Platform) (wk : Wakeup) (wks : list Wakeup) (p : Process) :
  sigwait_result wk <> 0 ->
  waitLoop pf (wk :: wks) p =
  (mkProcess (trace p ++ [EvSigwait]) (cred p) (sigmask p) (disposition p),
   Next (systemError (sigwait_result wk))) /\
  isError (systemError (sigwait_result wk)) = true.
Proof.
  intros H. apply Z.eqb_neq in H. split.
  - simpl. unfold loopBody, call, bind, emit, ret. cbn. rewrite H. reflexivity.
  - unfold isError, systemError. cbn. rewrite H. reflexivity.
Qed.

Lemma sigwait_failure_ends_loop_witness :
  waitLoop Linux.platform [mkWakeup 4 15 [] Success 0; Sample.wkSIGCHLD]
           Sample.blockedProcess =
  (mkProcess [EvSigwait] (mkCred 0 999 0) [17; 2; 3; 15]
             (disposition Sample.blockedProcess),
   Next (systemError 4)) /\
  isError (systemError 4) = true.
Proof.
  refine (sigwait_failure_ends_loop Linux.platform (mkWakeup 4 15 [] Success 0)
            [Sample.wkSIGCHLD] Sample.blockedProcess _).
  cbn. discriminate.
Defined.

(** X9.  When [waitForSignals] cannot set itself up, it never waits: if
    [sigaction] for SIGCHLD fails, the process is left as it was (no
    signal blocked, no disposition changed) and the error is made of
    [errno]; if [pthread_sigmask] fails, the handler for SIGCHLD is
    installed, the mask is unchanged and the error is the result of
    [pthread_sigmask]. *)
Theorem waitForSignals_setup_failure (w : World) (p : Process) :
  (sigaction_SIGCHLD_ret w <> 0 ->
   waitForSignals w p =
   (mkProcess
      (trace p ++ [EvSigaction (SIGCHLD (platform w)) (Handler "handleSIGCHLD")])
      (cred p) (sigmask p) (disposition p),
    Next (systemError (sigaction_SIGCHLD_errno w)))) /\
  (sigaction_SIGCHLD_ret w = 0 ->
   pthread_sigmask_ret w <> 0 ->
   waitForSignals w p =
   (mkProcess
      (trace p ++ [EvSigaction (SIGCHLD (platform w)) (Handler "handleSIGCHLD");
                   EvSigmaskBlock (wait_mask (platform w))])
      (cred p) (sigmask p)
      (fun s => if s =? SIGCHLD (platform w)
                then Handler "handleSIGCHLD" else disposition p s),
    Next (systemError (pthread_sigmask_ret w)))).
Proof.
  destruct p as [t0 c0 m0 d0].
  unfold waitForSignals, sigaction, pthread_sigmask_block, set_disposition.
  split.
  - intros H. apply Z.eqb_neq in H. run. rewrite !H. run. reflexivity.
  - intros Ha Hm. apply Z.eqb_neq in Hm. run. rewrite Ha.
    change (0 =? 0) with true. run. rewrite !Hm. run.
    change (0 =? 0) with true. run.
    rewrite <- app_assoc. reflexivity.
Qed.

Lemma waitForSignals_setup_failure_witness :
  waitForSignals Scenario.sigactionFails Sample.blockedProcess =
  (mkProcess [EvSigaction 17 (Handler "handleSIGCHLD")] (mkCred 0 999 0)
             [17; 2; 3; 15] (disposition Sample.blockedProcess),
   Next (systemError 22)).
Proof.
  refine (proj1 (waitForSignals_setup_failure Scenario.sigactionFails
                   Sample.blockedProcess) _).
  cbn. discriminate.
Defined.

(* ================================================================== *)
(** * Further properties: the first paragraphs of main *)

Lemma reaches_OptionsLoaded (w : World) :
  reaches w OptionsLoaded (startProcess w).
Proof. reflexivity. Qed.

(** X10.  When the options ask to exit (help, version, a bad option),
    [main] returns their exit code having only initialised the log,
    ignored SIGPIPE (a failure of which is logged and no more) and read
    the options: nothing is daemonized, detected or initialised. *)
Theorem options_exit_returns_early (w : World) :
  exit (options_read_ret w) = true ->
  main w =
  (mkProcess
     ([EvInitializeSystemLog "rserver" "kLogLevelWarning";
       EvIgnoreSignal "SigPipe"] ++
      logIf (isError (ignoreSignal_ret w)) (ignoreSignal_ret w) ++
      [EvOptionsRead])
     (start_cred w) (start_sigmask w) (start_disposition w),
   Exited (exitCode (options_read_ret w))).
Proof.
  intros He. rewrite (reaches_main w OptionsLoaded _ (reaches_OptionsLoaded w)).
  unfold phase, startProcess, logIf. run. rewrite He.
  destruct (isError (ignoreSignal_ret w)); run; reflexivity.
Qed.

Lemma options_exit_returns_early_witness :
  main Scenario.help =
  (mkProcess
     [EvInitializeSystemLog "rserver" "kLogLevelWarning";
      EvIgnoreSignal "SigPipe"; EvLogError (mkError 22); EvOptionsRead]
     (mkCred 0 0 0) [] (start_disposition Scenario.help),
   Exited 0).
Proof. exact (options_exit_returns_early Scenario.help eq_refl). Defined.

(** X11.  When the R environment cannot be detected, [main] reports the
    message of the detection and returns EXIT_FAILURE at once. *)
Theorem r_environment_failure_is_fatal (w : World) (p : Process) :
  reaches w EnvironmentDetected p ->
  r_environment_detected w = false ->
  main w =
  (mkProcess
     (trace p ++ [EvREnvironmentInitialize;
                  EvReportError (r_environment_errMsg w)])
     (cred p) (sigmask p) (disposition p),
   Exited EXIT_FAILURE).
Proof.
  intros Hr Hd. rewrite (reaches_main w EnvironmentDetected p Hr).
  destruct p as [t0 c0 m0 d0]. unfold phase. run. rewrite Hd. run.
  rewrite <- app_assoc. reflexivity.
Qed.

Lemma r_environment_failure_is_fatal_witness :
  main Scenario.noR =
  (mkProcess
     [EvInitializeSystemLog "rserver" "kLogLevelWarning";
      EvIgnoreSignal "SigPipe"; EvOptionsRead; EvREnvironmentInitialize;
      EvReportError "Unable to find an installation of R"]
     (mkCred 0 0 0) [] (start_disposition Scenario.noR),
   Exited EXIT_FAILURE).
Proof.
  refine (r_environment_failure_is_fatal Scenario.noR
            (mkProcess [EvInitializeSystemLog "rserver" "kLogLevelWarning";
                        EvIgnoreSignal "SigPipe"; EvOptionsRead]
                       (mkCred 0 0 0) [] (start_disposition Scenario.noR))
            _ eq_refl).
  vm_compute. reflexivity.
Defined.

(** Only the paragraph that gives up root privilege changes the
    credentials. *)
Lemma phase_keeps_cred (w : World) (ph : Phase) :
  ph <> PrivilegeDropped -> keeps sameCred (fun _ => True) (phase w ph).
Proof.
  intros Hph.
  destruct ph; try (exfalso; apply Hph; reflexivity);
    try apply running_keeps_cred;
    unfold phase, sameCred; returns_tac.
Qed.

Lemma runPhases_keeps_cred (w : World) (phs : list Phase) :
  ~ In PrivilegeDropped phs ->
  keeps sameCred (fun _ => True) (runPhases w phs).
Proof.
  induction phs as [| ph phs IH]; intros Hn; simpl.
  - apply keeps_ret. intros p. reflexivity.
  - apply keeps_bind.
    + unfold sameCred. intros; etransitivity; eassumption.
    + apply phase_keeps_cred. intros ->. apply Hn. left. reflexivity.
    + intros _. apply IH. intros Hin. apply Hn. right. exact Hin.
Qed.

(** Up to the privilege drop the process has the credentials it was
    started with. *)
Lemma reaches_cred (w : World) (ph : Phase) (p : Process) :
  (phaseIndex ph <= phaseIndex PrivilegeDropped)%nat ->
  reaches w ph p -> cred p = start_cred w.
Proof.
  intros Hle Hr.
  assert (Hn : ~ In PrivilegeDropped (before ph)).
  { destruct ph; cbn in Hle |- *; try lia; intros H;
      repeat (destruct H as [H | H]; [discriminate H |]); exact H. }
  destruct (runPhases_keeps_cred w (before ph) Hn _ _ _ Hr) as [Hc _].
  exact Hc.
Qed.

Lemma isSetResourceLimit_callOf (e : Event) :
  isSetResourceLimit e = true -> callOf ResourceLimitsSet e = true.
Proof. destruct e; cbn; intros H; first [reflexivity | discriminate H]. Qed.

(** X12.  The limit on open files is raised, to 4096, only when the real
    user is root: a run started by another real user never touches it,
    and a run of root that gets to this paragraph always asks for it once,
    a failure being fatal. *)
Theorem open_files_limit_needs_root (w : World) :
  (ruid (start_cred w) <> 0 ->
   existsb isSetResourceLimit (trace (fst (main w))) = false) /\
  (forall p,
      reaches w ResourceLimitsSet p ->
      ruid (start_cred w) = 0 ->
      filter isSetResourceLimit (trace (fst (main w))) = [EvSetResourceLimit 4096] /\
      (isError (setResourceLimit_ret w) = true ->
       main w =
       (mkProcess (trace p ++ [EvSetResourceLimit 4096;
                               EvLogError (setResourceLimit_ret w)])
                  (cred p) (sigmask p) (disposition p),
        Exited EXIT_FAILURE))).
Proof.
  split.
  - intros Hroot. rewrite existsb_as_filter.
    destruct (main_phase_calls w ResourceLimitsSet)
      as [Hnone | [p [p2 [r2 [t [Hreach [Hph [Ht Hcalls]]]]]]]].
    + rewrite (Hnone _ isSetResourceLimit_callOf). reflexivity.
    + rewrite (Hcalls _ isSetResourceLimit_callOf).
      pose proof (reaches_cred w ResourceLimitsSet p
                    ltac:(cbn; lia) Hreach) as Hc.
      destruct p as [t0 c0 m0 d0]. cbn in Hc. subst c0.
      apply Z.eqb_neq in Hroot.
      unfold phase in Hph. revert Hph. run. rewrite Hroot. run.
      intros Hph. inversion Hph as [[Hp2 Hr2]]. rewrite <- Hp2 in Ht.
      cbn in Ht. rewrite <- (app_nil_r t0) in Ht at 1.
      apply app_inv_head in Ht. subst t. reflexivity.
  - intros p Hreach Hroot.
    pose proof (reaches_cred w ResourceLimitsSet p ltac:(cbn; lia) Hreach)
      as Hc.
    assert (Hpar :
      phase w ResourceLimitsSet p =
      if isError (setResourceLimit_ret w)
      then (mkProcess (trace p ++ [EvSetResourceLimit 4096;
                                   EvLogError (setResourceLimit_ret w)])
                      (cred p) (sigmask p) (disposition p),
            Stop (Exited EXIT_FAILURE))
      else (mkProcess (trace p ++ [EvSetResourceLimit 4096])
                      (cred p) (sigmask p) (disposition p), Next tt)).
    { destruct p as [t0 c0 m0 d0]. cbn in Hc. subst c0.
      unfold phase. run. rewrite Hroot. change (0 =? 0) with true. run.
      destruct (isError (setResourceLimit_ret w)); run;
        [rewrite <- app_assoc |]; reflexivity. }
    split.
    + destruct (main_phase_calls w ResourceLimitsSet)
        as [Hnone | [q [p2 [r2 [t [Hq [Hph [Ht Hcalls]]]]]]]].
      * exfalso.
        pose proof (Hnone _ isSetResourceLimit_callOf) as Hf.
        rewrite (reaches_main w ResourceLimitsSet p Hreach) in Hf.
        unfold bind in Hf. rewrite Hpar in Hf.
        destruct (isError (setResourceLimit_ret w)).
        -- cbn in Hf. rewrite filter_app in Hf. cbn in Hf.
           apply app_eq_nil in Hf. destruct Hf as [_ Hf]. discriminate Hf.
        -- destruct (runPhases w (after ResourceLimitsSet) _) as [p3 r3] eqn:E3.
           destruct (runPhases_emits w _ _ _ _ E3) as [t3 [Et3 _]].
           assert (Hf' : filter isSetResourceLimit (trace p3) = []).
           { destruct r3; exact Hf. }
           rewrite Et3 in Hf'. cbn in Hf'. rewrite !filter_app in Hf'.
           cbn in Hf'. apply app_eq_nil in Hf'. destruct Hf' as [Hf' _].
           apply app_eq_nil in Hf'. destruct Hf' as [_ Hf']. discriminate Hf'.
      * rewrite (Hcalls _ isSetResourceLimit_callOf).
        unfold reaches in Hq, Hreach. rewrite Hreach in Hq.
        inversion Hq. subst q. rewrite Hpar in Hph.
        destruct (isError (setResourceLimit_ret w));
          inversion Hph as [[Hp2 Hr2]]; rewrite <- Hp2 in Ht; cbn in Ht;
          apply app_inv_head in Ht; subst t; reflexivity.
    + intros He. rewrite (reaches_main w ResourceLimitsSet p Hreach).
      unfold bind. rewrite Hpar, He. reflexivity.
Qed.

Lemma open_files_limit_needs_root_witness :
  existsb isSetResourceLimit (trace (fst (main Scenario.offline))) = false /\
  filter isSetResourceLimit (trace (fst (main Sample.healthy))) =
  [EvSetResourceLimit 4096].
Proof.
  split.
  - apply (proj1 (open_files_limit_needs_root Scenario.offline)).
    cbn. lia.
  - assert (Hr : exists p, reaches Sample.healthy ResourceLimitsSet p)
      by (eexists; vm_compute; reflexivity).
    destruct Hr as [p Hr].
    exact (proj1 (proj2 (open_files_limit_needs_root Sample.healthy)
                        p Hr eq_refl)).
Defined.

Lemma bind_call_trace {A B : Type} (P : Event -> bool) (e : Event) (a : A)
      (k : A -> M B) (p p' : Process) (r : Flow B) :
  emits P (k a) -> bind (call e a) k p = (p', r) ->
  exists t, trace p' = trace p ++ e :: t.
Proof.
  intros Hk H. unfold call, bind, emit, ret in H. cbn in H.
  destruct (Hk _ _ _ H) as [t [Et _]]. cbn in Et.
  exists t. rewrite Et, <- app_assoc. reflexivity.
Qed.

(** Outside verify-installation mode the last paragraph starts by running
    the server. *)
Lemma run_paragraph_starts (w : World) (p p2 : Process) (r2 : Flow unit) :
  verifyInstallation (options w) = false ->
  phase w Running p = (p2, r2) ->
  exists t, trace p2 =
            trace p ++ EvServerRun (wwwThreadPoolSize (options w)) :: t.
Proof.
  intros Hv. unfold phase. rewrite Hv.
  apply (bind_call_trace (within Running)).
  repeat first [apply waitForSignals_emits | progress emits_tac].
Qed.

Lemma earlier_not_server_run (t : list Event) :
  forallb (earlier Running) t = true -> existsb isServerRun t = false.
Proof.
  intros H. rewrite existsb_as_filter.
  rewrite (no_call_filter Running isServerRun);
    [reflexivity | exact isServerRun_callOf | apply earlier_no_call, H].
Qed.

(** X13.  With a user to run as configured, the server is only run when
    the privilege drop to that user succeeded, and the drop is the call
    made just before the server is run; the server is not run before. *)
Theorem server_run_follows_privilege_drop (w : World) :
  empty (serverUser (options w)) = false ->
  existsb isServerRun (trace (fst (main w))) = true ->
  verifyInstallation (options w) = false /\
  isError (temporarilyDropPriv_ret w) = false /\
  exists t t',
    trace (fst (main w)) =
    t ++ EvTemporarilyDropPriv (serverUser (options w))
      :: EvServerRun (wwwThreadPoolSize (options w)) :: t' /\
    existsb isServerRun t = false.
Proof.
  intros Huser Hrun.
  destruct (main_cases w Running)
    as [[p [code [Hstop [Hm Hearly]]]]
       | [p [p2 [r2 [t [Hreach [Hearly [Hph [Ht [Hin Hrest]]]]]]]]]].
  - rewrite Hm in Hrun. cbn in Hrun.
    rewrite (earlier_not_server_run _ Hearly) in Hrun. discriminate Hrun.
  - destruct (running_after_drop w p Hreach Huser) as [Hdrop [t0 Ht0]].
    assert (Hmain : exists t'', trace (fst (main w)) = trace p2 ++ t'').
    { destruct r2 as [[] | h].
      - destruct Hrest as [_ [t' [Ht' _]]]. exists t'. exact Ht'.
      - rewrite Hrest. exists []. cbn. rewrite app_nil_r. reflexivity. }
    destruct Hmain as [t'' Hmain].
    destruct (verifyInstallation (options w)) eqn:Hv.
    + exfalso. rewrite (verify_paragraph w p Hv) in Hph.
      inversion Hph as [[Hp2 Hr2]]. subst r2. rewrite Hrest in Hrun.
      rewrite <- Hp2 in Hrun. cbn in Hrun. rewrite existsb_app in Hrun.
      rewrite (earlier_not_server_run _ Hearly) in Hrun.
      unfold logIf in Hrun.
      destruct (isError (runVerifyInstallationSession_ret w));
        discriminate Hrun.
    + split; [reflexivity |]. split; [exact Hdrop |].
      destruct (run_paragraph_starts w p p2 r2 Hv Hph) as [t1 Ht1].
      exists t0, (t1 ++ t''). split.
      * rewrite Hmain, Ht1, Ht0. rewrite <- !app_assoc. reflexivity.
      * rewrite Ht0 in Hearly. rewrite forallb_app in Hearly.
        apply andb_prop in Hearly. destruct Hearly as [He0 _].
        exact (earlier_not_server_run _ He0).
Qed.

Lemma server_run_follows_privilege_drop_witness :
  exists t t',
    trace (fst (main Sample.healthy)) =
    t ++ EvTemporarilyDropPriv "rstudio-server" :: EvServerRun 2 :: t' /\
    existsb isServerRun t = false.
Proof.
  exact (proj2 (proj2 (server_run_follows_privilege_drop Sample.healthy
                         eq_refl ltac:(vm_compute; reflexivity)))).
Defined.

(* ================================================================== *)
(** * Further properties: the HTTP server and the order of the calls *)

Lemma bind_inv {A B : Type} (c : M A) (k : A -> M B) (p p' : Process)
      (r : Flow B) :
  bind c k p = (p', r) ->
  (exists p1 a, c p = (p1, Next a) /\ k a p1 = (p', r)) \/
  (exists h, c p = (p', Stop h) /\ r = Stop h).
Proof.
  unfold bind. destruct (c p) as [p1 [a | h]]; intros H.
  - left. exists p1, a. split; [reflexivity | exact H].
  - right. exists h. inversion H. split; reflexivity.
Qed.

Lemma httpServerInit_run (w : World) (p : Process) :
  httpServerInit w p =
  (mkProcess (trace p ++
              [EvNewServer "RStudio"; EvSetAbortOnResourceError true;
               EvServerInit (wwwAddress (options w)) (wwwPort (options w))])
             (cred p) (sigmask p) (disposition p),
   Next (server_init_ret w)).
Proof.
  destruct p as [t0 c0 m0 d0]. unfold httpServerInit. run.
  rewrite <- !app_assoc. reflexivity.
Qed.

(** The paragraph that sets up the HTTP server: [init] is the first call
    on the server; when it fails the paragraph logs the error and returns,
    and otherwise no later call of the paragraph is another [init]. *)
Lemma handlers_paragraph_shape (w : World) (p p2 : Process) (r2 : Flow unit) :
  phase w HandlersRegistered p = (p2, r2) ->
  (isError (server_init_ret w) = true /\
   r2 = Stop (Exited EXIT_FAILURE) /\
   trace p2 =
   trace p ++
   [EvNewServer "RStudio"; EvSetAbortOnResourceError true;
    EvServerInit (wwwAddress (options w)) (wwwPort (options w));
    EvLogError (server_init_ret w)])
  \/
  (isError (server_init_ret w) = false /\
   exists t,
     trace p2 =
     trace p ++
     [EvNewServer "RStudio"; EvSetAbortOnResourceError true;
      EvServerInit (wwwAddress (options w)) (wwwPort (options w))] ++ t /\
     forallb (fun e => negb (isServerInit e)) t = true).
Proof.
  intros H. unfold phase in H. apply bind_inv in H.
  rewrite httpServerInit_run in H.
  destruct H as [[p1 [error [Hinit H]]] | [h [Hinit _]]];
    [| discriminate Hinit].
  inversion Hinit as [[Hp1 Herr]]. clear Hinit. subst error.
  unfold check in H.
  destruct (isError (server_init_ret w)) eqn:He.
  - left. split; [reflexivity |].
    revert H. rewrite <- Hp1. unfold exitFailure. run. intros H.
    inversion H. split; [reflexivity |].
    rewrite <- app_assoc. reflexivity.
  - right. split; [reflexivity |].
    apply bind_inv in H.
    destruct H as [[p3 [[] [Hret H]]] | [h [Hret _]]];
      [| discriminate Hret].
    inversion Hret. subst p3.
    match type of H with
    | ?c _ = _ =>
        assert (Hemits : emits (fun e => negb (isServerInit e)) c)
          by (repeat first [progress emits_tac])
    end.
    destruct (Hemits _ _ _ H) as [t [Et Ft]].
    exists t. split; [| exact Ft].
    rewrite Et, <- Hp1. cbn. rewrite <- app_assoc. reflexivity.
Qed.

Lemma serverReady_earlier (w : World) (b : bool) (t t' : list Event) :
  forallb (earlier HandlersRegistered) t = true ->
  serverReady w b (t ++ t') = serverReady w b t'.
Proof.
  induction t as [| e t IH]; [reflexivity |].
  intros H. cbn in H. apply andb_prop in H. destruct H as [He Ht].
  destruct e; cbn in He |- *; first [discriminate He | exact (IH Ht)].
Qed.

Lemma serverReady_true (w : World) (t : list Event) :
  forallb (fun e => negb (isServerInit e)) t = true ->
  serverReady w true t = true.
Proof.
  induction t as [| e t IH]; [reflexivity |].
  intros H. cbn in H. apply andb_prop in H. destruct H as [He Ht].
  destruct e; cbn in He |- *; first [discriminate He | exact (IH Ht)].
Qed.

Lemma later_not_init (t : list Event) :
  forallb (later HandlersRegistered) t = true ->
  forallb (fun e => negb (isServerInit e)) t = true.
Proof.
  apply forallb_impl. intros e. destruct e; cbn; intros H;
    first [reflexivity | discriminate H].
Qed.

(** X14.  In a run of [main] every use of the HTTP server (a handler or
    the default handler added, the offline handlers, [run]) comes after
    its [init] has been called and has answered without error: when
    [init] fails nothing is registered and nothing is run. *)
Theorem server_used_only_after_init (w : World) :
  serverReady w false (trace (fst (main w))) = true.
Proof.
  destruct (main_cases w HandlersRegistered)
    as [[p [code [Hstop [Hm Hearly]]]]
       | [p [p2 [r2 [t [Hreach [Hearly [Hph [Ht [Hin Hrest]]]]]]]]]].
  - rewrite Hm. cbn. rewrite <- (app_nil_r (trace p)).
    rewrite (serverReady_earlier w false _ [] Hearly). reflexivity.
  - destruct (handlers_paragraph_shape w p p2 r2 Hph)
      as [[He [Hr2 Hp2]] | [He [t1 [Hp2 Ft1]]]].
    + subst r2. rewrite Hrest. cbn. rewrite Hp2.
      rewrite (serverReady_earlier w false _ _ Hearly).
      reflexivity.
    + assert (Hmain : exists t'',
                 trace (fst (main w)) = trace p2 ++ t'' /\
                 forallb (later HandlersRegistered) t'' = true).
      { destruct r2 as [[] | h].
        - destruct Hrest as [_ Hrest]. exact Hrest.
        - rewrite Hrest. exists []. cbn. rewrite app_nil_r.
          split; reflexivity. }
      destruct Hmain as [t'' [Hmain Flater]].
      rewrite Hmain, Hp2, <- !app_assoc.
      rewrite (serverReady_earlier w false _ _ Hearly).
      cbn. rewrite He. cbn. apply serverReady_true.
      rewrite forallb_app, Ft1. cbn. apply later_not_init, Flater.
Qed.

Lemma isOnlineOnly_callOf (e : Event) :
  isOnlineOnly e = true -> callOf HandlersRegistered e = true.
Proof. destruct e; cbn; intros H; first [reflexivity | discriminate H]. Qed.

Lemma isOfflineAddHandlers_callOf (e : Event) :
  isOfflineAddHandlers e = true -> callOf HandlersRegistered e = true.
Proof. destruct e; cbn; intros H; first [reflexivity | discriminate H]. Qed.

Lemma forallb_negb_filter (f : Event -> bool) (t : list Event) :
  forallb (fun e => negb (f e)) t = true -> filter f t = [].
Proof.
  induction t as [| e t IH]; [reflexivity |].
  cbn. intros H. apply andb_prop in H. destruct H as [He Ht].
  destruct (f e); [discriminate He | exact (IH Ht)].
Qed.

(** What one paragraph never calls, [main] never calls, when the calls in
    question are calls of that paragraph. *)
Lemma main_never_calls (w : World) (ph : Phase) (f : Event -> bool) :
  (forall e, f e = true -> callOf ph e = true) ->
  emits (fun e => negb (f e)) (phase w ph) ->
  existsb f (trace (fst (main w))) = false.
Proof.
  intros Hf Hemits. rewrite existsb_as_filter.
  destruct (main_phase_calls w ph)
    as [Hnone | [p [p2 [r2 [t [Hreach [Hph [Ht Hcalls]]]]]]]].
  - rewrite (Hnone f Hf). reflexivity.
  - rewrite (Hcalls f Hf).
    destruct (Hemits _ _ _ Hph) as [t1 [Et1 Ft1]].
    rewrite Ht in Et1. apply app_inv_head in Et1. subst t1.
    rewrite (forallb_negb_filter f t Ft1). reflexivity.
Qed.

(** X15.  The two modes of the server exclude each other: an offline
    server never gets the handlers of [httpServerAddHandlers], the addins
    or the authentication, and a server that is not offline never gets the
    offline handlers. *)
Theorem offline_and_online_handlers_exclusive (w : World) :
  (serverOffline (options w) = true ->
   existsb isOnlineOnly (trace (fst (main w))) = false) /\
  (serverOffline (options w) = false ->
   existsb isOfflineAddHandlers (trace (fst (main w))) = false).
Proof.
  split; intros Hoff.
  - apply (main_never_calls w HandlersRegistered);
      [exact isOnlineOnly_callOf |].
    unfold phase. rewrite Hoff. repeat (progress emits_tac).
  - apply (main_never_calls w HandlersRegistered);
      [exact isOfflineAddHandlers_callOf |].
    unfold phase. rewrite Hoff. repeat (progress emits_tac).
Qed.

Lemma offline_and_online_handlers_exclusive_witness :
  existsb isOnlineOnly (trace (fst (main Scenario.offline))) = false /\
  existsb isOfflineAddHandlers (trace (fst (main Sample.healthy))) = false.
Proof.
  split.
  - exact (proj1 (offline_and_online_handlers_exclusive Scenario.offline)
                 eq_refl).
  - exact (proj2 (offline_and_online_handlers_exclusive Sample.healthy)
                 eq_refl).
Defined.

Lemma inOrder_mono (lo lo' : nat) (t : list Event) :
  (lo <= lo')%nat -> inOrder lo' t = true -> inOrder lo t = true.
Proof.
  revert lo lo'. induction t as [| e t IH]; intros lo lo' Hle; [reflexivity |].
  cbn. destruct (eventPhase e) as [ph |].
  - intros H. apply andb_prop in H. destruct H as [H1 H2].
    apply Nat.leb_le in H1. apply andb_true_intro. split; [| exact H2].
    apply Nat.leb_le. lia.
  - apply IH. exact Hle.
Qed.

Lemma inOrder_app_within (ph : Phase) (t t' : list Event) (lo : nat) :
  forallb (within ph) t = true ->
  (lo <= phaseIndex ph)%nat ->
  inOrder (phaseIndex ph) t' = true ->
  inOrder lo (t ++ t') = true.
Proof.
  revert lo. induction t as [| e t IH]; intros lo H Hle Ht'.
  - exact (inOrder_mono lo _ t' Hle Ht').
  - cbn in H. apply andb_prop in H. destruct H as [He Ht].
    cbn. unfold within, phaseIs in He.
    destruct (eventPhase e) as [q |].
    + apply Nat.eqb_eq in He. rewrite He.
      apply andb_true_intro. split; [apply Nat.leb_le; exact Hle |].
      apply IH; [exact Ht | lia | exact Ht'].
    + apply IH; assumption.
Qed.

Lemma runPhases_inOrder (w : World) (phs : list Phase) :
  forall lo, ascending lo phs = true ->
  forall p p' r, runPhases w phs p = (p', r) ->
  exists t, trace p' = trace p ++ t /\ inOrder lo t = true.
Proof.
  induction phs as [| ph phs IH]; intros lo Hasc p p' r H.
  - inversion H. exists []. rewrite app_nil_r. split; reflexivity.
  - cbn in Hasc. apply andb_prop in Hasc. destruct Hasc as [Hlo Hasc].
    apply Nat.leb_le in Hlo.
    change (runPhases w (ph :: phs))
      with (bind (phase w ph) (fun _ => runPhases w phs)) in H.
    apply bind_inv in H.
    destruct H as [[p1 [a [Hph H]]] | [h [Hph _]]].
    + destruct (phase_emits w ph _ _ _ Hph) as [t1 [Et1 Ft1]].
      destruct (IH _ Hasc _ _ _ H) as [t2 [Et2 Ft2]].
      exists (t1 ++ t2). split.
      * rewrite Et2, Et1, <- app_assoc. reflexivity.
      * apply (inOrder_app_within ph); [exact Ft1 | exact Hlo |].
        apply (inOrder_mono _ (S (phaseIndex ph))); [lia | exact Ft2].
    + destruct (phase_emits w ph _ _ _ Hph) as [t1 [Et1 Ft1]].
      exists t1. split; [exact Et1 |].
      rewrite <- (app_nil_r t1).
      apply (inOrder_app_within ph); [exact Ft1 | exact Hlo | reflexivity].
Qed.

(** X16.  [main] makes its calls in the order of its paragraphs: options,
    daemonizing, detection of R, resource limit, working directory,
    crypto, security modules, HTTP server and handlers, AppArmor,
    privilege drop, running; no call of an earlier paragraph follows a
    call of a later one, whatever the collaborators answer. *)
Theorem calls_follow_paragraph_order (w : World) :
  inOrder 0 (trace (fst (main w))) = true.
Proof.
  unfold main.
  destruct (runPhases w allPhases (startProcess w)) as [p r] eqn:E.
  destruct (runPhases_inOrder w allPhases 0 eq_refl _ _ _ E) as [t [Et Ft]].
  cbn in Et.
  destruct r; cbn; rewrite Et; exact Ft.
Qed.

(* ================================================================== *)
(** * Further properties: child exits over a whole run *)

Lemma quiet_count {A : Type} (f : Event -> bool) (c : M A)
      (p p' : Process) (r : Flow A) :
  emits (fun e => negb (f e)) c -> c p = (p', r) ->
  filter f (trace p') = filter f (trace p).
Proof.
  intros Hc H. destruct (Hc _ _ _ H) as [t [Et Ft]].
  rewrite Et, filter_app, (forallb_negb_filter f t Ft), app_nil_r.
  reflexivity.
Qed.

(** The loop sees the returns of [sigwait] in the order they come, up to
    the one that ends it. *)
Lemma observed_prefix (pf : Platform) (wks : list Wakeup) :
  forall p, exists rest, wks = observed pf wks p ++ rest.
Proof.
  induction wks as [| wk wks IH]; intros p; [exists []; reflexivity |].
  cbn [observed].
  destruct (loopBody pf wk p) as [p1 [[error |] | h]].
  - exists wks. reflexivity.
  - destruct (IH p1) as [rest Hrest]. exists rest. cbn.
    rewrite <- Hrest. reflexivity.
  - exists wks. reflexivity.
Qed.

Lemma observed_child_exits (pf : Platform) (wks : list Wakeup) (p : Process) :
  (length (filter (isChildExit pf) (observed pf wks p)) <=
   length (filter (isChildExit pf) wks))%nat.
Proof.
  destruct (observed_prefix pf wks p) as [rest Hrest].
  rewrite Hrest at 2. rewrite filter_app, length_app. lia.
Qed.

(** The run [Hc] makes no call of [notifySIGCHLD]. *)
Ltac quiet Hc :=
  match type of Hc with
  | ?c ?p = (?p', ?r) =>
      let E := fresh "E" in
      assert (E : filter isNotifySIGCHLD (trace p') =
                  filter isNotifySIGCHLD (trace p))
        by (apply (quiet_count isNotifySIGCHLD c p p' r);
            [repeat (progress emits_tac) | exact Hc])
  end.

Lemma waitForSignals_notifies (w : World) (p p' : Process) (r : Flow Error) :
  waitForSignals w p = (p', r) ->
  (length (filter isNotifySIGCHLD (trace p')) <=
   length (filter isNotifySIGCHLD (trace p)) +
   length (filter (isChildExit (platform w)) (wakeups w)))%nat.
Proof.
  intros H. unfold waitForSignals in H.
  apply bind_inv in H.
  destruct H as [[p1 [res [Hc H]]] | [h [Hc _]]]; quiet Hc;
    [| rewrite E; lia].
  destruct (negb (res =? 0)).
  - inversion H. subst. rewrite E. lia.
  - apply bind_inv in H.
    destruct H as [[p3 [res' [Hc' H]]] | [h [Hc' _]]]; quiet Hc';
      [| rewrite E0, E; lia].
    destruct (negb (res' =? 0)).
    + inversion H. subst. rewrite E0, E. lia.
    + rewrite (waitLoop_notifies _ _ _ _ _ H), E0, E.
      pose proof (observed_child_exits (platform w) (wakeups w) p3).
      lia.
Qed.

Lemma running_notifies (w : World) (p p' : Process) (r : Flow unit) :
  phase w Running p = (p', r) ->
  (length (filter isNotifySIGCHLD (trace p')) <=
   length (filter isNotifySIGCHLD (trace p)) +
   length (filter (isChildExit (platform w)) (wakeups w)))%nat.
Proof.
  intros H. unfold phase in H.
  destruct (verifyInstallation (options w)).
  - quiet H. rewrite E. lia.
  - apply bind_inv in H.
    destruct H as [[p1 [error [Hc H]]] | [h [Hc _]]]; quiet Hc;
      [| rewrite E; lia].
    rewrite <- E.
    apply bind_inv in H.
    destruct H as [[p3 [[] [Hc' H]]] | [h [Hc' _]]]; quiet Hc';
      [| rewrite E0; lia].
    rewrite <- E0.
    apply bind_inv in H.
    destruct H as [[p4 [error' [Hw H]]] | [h [Hw _]]].
    + quiet H. rewrite E1.
      exact (waitForSignals_notifies w _ _ _ Hw).
    + exact (waitForSignals_notifies w _ _ _ Hw).
Qed.

Lemma isNotifySIGCHLD_callOf (e : Event) :
  isNotifySIGCHLD e = true -> callOf Running e = true.
Proof. destruct e; cbn; intros H; first [reflexivity | discriminate H]. Qed.

(** X17.  Over a whole run the session manager is never notified of a
    child exit more often than [sigwait] returned the child-exit signal:
    no notification without a signal, whatever else is received and
    however the run ends. *)
Theorem notified_only_of_child_exits (w : World) :
  (length (filter isNotifySIGCHLD (trace (fst (main w)))) <=
   length (filter (isChildExit (platform w)) (wakeups w)))%nat.
Proof.
  destruct (main_cases w Running)
    as [[p [code [Hstop [Hm Hearly]]]]
       | [p [p2 [r2 [t [Hreach [Hearly [Hph [Ht [Hin Hrest]]]]]]]]]].
  - rewrite Hm. cbn.
    rewrite (no_call_filter Running isNotifySIGCHLD _
               isNotifySIGCHLD_callOf (earlier_no_call _ _ Hearly)).
    cbn. lia.
  - pose proof (running_notifies w p p2 r2 Hph) as Hn.
    rewrite (no_call_filter Running isNotifySIGCHLD _
               isNotifySIGCHLD_callOf (earlier_no_call _ _ Hearly)) in Hn.
    cbn in Hn.
    destruct r2 as [[] | h].
    + destruct Hrest as [_ [t' [Ht' Flater]]].
      rewrite Ht', filter_app, length_app.
      rewrite (no_call_filter Running isNotifySIGCHLD _
                 isNotifySIGCHLD_callOf (later_no_call _ _ Flater)).
      cbn. lia.
    + rewrite Hrest. cbn. exact Hn.
Qed.
